(** * The paper-trading cycle of polymarket_live.py

    A shallow embedding of the trading engine that
    [HOSTINGER_ONE_PASTE_INSTALL.sh] installs as [polymarket_live.py]:
    regime detection, signal generation, the position book with its risk
    checks, and the cycle that ties them to the three JSON documents.

    Modelling conventions.
    - Python floats are exact rationals ([Qc], canonical fractions, so that
      equality of portfolios is plain equality).  Every comparison and every
      guard of the source is kept; rounding is not modelled.
    - A Python exception is a [Raise] in the [result] monad; a function whose
      body sits in [try: ... except Exception] returns what its handler
      returns, with the mutations made before the exception kept.
    - [dict] objects with a fixed set of keys are records; [outcomes_dict] and
      the price-history cache, whose keys are data, are [gmap]s.
    - A JSON document on disk is an [option]: [None] is a file that is missing
      or does not parse, which is what the loaders fall back from.
    - [datetime.now().isoformat()] is a [now] argument; [print] is dropped.
    - Market discovery reads the decoded [/markets] answer, given as an
      argument; [str.upper] there and [math.sqrt] in [dashboard.py]'s
      [calculate_metrics] are parameters of the definitions that use them. *)

From Stdlib Require Import QArith Qcanon Ascii.
From stdpp Require Import base numbers list strings gmap sorting.

Local Open Scope Qc_scope.

(** ** Numbers *)

Module Num.

(** A decimal literal of the source, [dec 15 100] for [0.15]. *)
Definition dec (n : Z) (d : positive) : Qc := Q2Qc (n # d).

Definition ltb (x y : Qc) : bool := negb (Qle_bool y x).
Definition leb (x y : Qc) : bool := Qle_bool x y.
Definition eqb (x y : Qc) : bool := Qeq_bool x y.

End Num.

(** ** Exceptions *)

Inductive exn := ZeroDivisionError | IndexError | StatisticsError.

Inductive result (A : Type) :=
  | Ok (a : A)
  | Raise (e : exn).
Arguments Ok {A} a.
Arguments Raise {A} e.

Definition bind {A B} (r : result A) (k : A → result B) : result B :=
  match r with
  | Ok a => k a
  | Raise e => Raise e
  end.

Global Instance result_bind : MBind result := λ A B k r, bind r k.
Global Instance result_ret : MRet result := λ A a, Ok a.

(** [x / y] on floats. *)
Definition fdiv (x y : Qc) : result Qc :=
  if Num.eqb y 0 then Raise ZeroDivisionError else Ok (x / y).

(** [l[i]] for [i >= 0]. *)
Definition at_index (l : list Qc) (i : nat) : result Qc :=
  match l !! i with
  | Some x => Ok x
  | None => Raise IndexError
  end.

(** [l[-k]] for [k >= 1]. *)
Definition neg_index (l : list Qc) (k : nat) : result Qc :=
  if decide (k ≤ length l)%nat
  then match l !! (length l - k)%nat with
       | Some x => Ok x
       | None => Raise IndexError
       end
  else Raise IndexError.

(** [l[-k:]]. *)
Definition last_n {A} (k : nat) (l : list A) : list A :=
  drop (length l - k) l.

(** ** Configuration *)

Module MEAN_REVERSION_CONFIG.
Definition entry_threshold : Qc := Num.dec 40 100.
Definition exit_threshold : Qc := Num.dec 60 100.
Definition stop_loss : Qc := Num.dec 10 100.
Definition profit_target : Qc := Num.dec 60 100.
End MEAN_REVERSION_CONFIG.

Module REVERSAL_CONFIG.
Definition momentum_2_threshold : Qc := Num.dec 1 100.
Definition momentum_10_threshold : Qc := Num.dec (-2) 100.
Definition stop_loss : Qc := Num.dec 8 100.
Definition profit_target : Qc := Num.dec 5 100.
End REVERSAL_CONFIG.

Definition BANKROLL : Qc := Num.dec 100 1.
Definition POSITION_SIZE : Qc := Num.dec 3 1000.
Definition MIN_LIQUIDITY : Qc := Num.dec 100 1.
Definition CIRCUIT_BREAKER : Z := 3.

(** ** Data model *)

Inductive Regime := unknown | volatile | bull | bear | sideways.
Inductive Signal := BUY | HOLD.
(** The strategy tag; [no_strategy] is the empty string. *)
Inductive Strategy := mean_reversion | reversal | no_strategy.

(** [f"profit_target ({pnl_pct:.2%})"] and [f"stop_loss ({pnl_pct:.2%})"]
    keep the fraction they print; [no_reason] is the empty string. *)
Inductive ExitReason :=
  | profit_target (pnl_pct : Qc)
  | stop_loss (pnl_pct : Qc)
  | no_reason.

Global Instance Regime_eq_dec : EqDecision Regime.
Proof. solve_decision. Defined.
Global Instance Signal_eq_dec : EqDecision Signal.
Proof. solve_decision. Defined.
Global Instance Strategy_eq_dec : EqDecision Strategy.
Proof. solve_decision. Defined.

(** One market of the feed, as [get_crypto_markets] hands it on.
    [liquidity] is the key the cycle sorts by, taken to be a number. *)
Record Market := mkMarket {
  id : string;
  question : string;
  liquidity : Qc;
  outcomes_dict : gmap string Qc;
}.

Record Position := mkPosition {
  market_id : string;
  market_question : string;
  entry_time : string;
  entry_price : Qc;
  shares : Qc;
  amount : Qc;
  strategy : Strategy;
  current_price : Qc;
  unrealized_pnl : Qc;
  unrealized_pnl_pct : Qc;
  stop_loss_pct : Qc;
  profit_target_pct : Qc;
}.

(** The [positions] document. *)
Record Portfolio := mkPortfolio {
  positions : list Position;
  cash : Qc;
  equity : Qc;
  high_water : Qc;
  max_drawdown : Qc;
  consecutive_losses : Z;
}.

Inductive Trade :=
  | BuyTrade (timestamp market : string) (strat : Strategy)
             (price shares amount : Qc) (position_id : Z)
  | SellTrade (timestamp market : string) (price shares amount : Qc)
              (realized_pnl realized_pnl_pct : Qc) (exit_reason : ExitReason)
              (position_id : Z).

Record EquityLog := mkEquityLog {
  log_timestamp : string;
  log_cash : Qc;
  log_equity : Qc;
  positions_count : nat;
  log_max_drawdown : Qc;
}.

(** The three files under [/root/polymarket_trading]. *)
Record Files := mkFiles {
  POSITION_FILE : option Portfolio;
  TRADES_FILE : option (list Trade);
  EQUITY_FILE : option (list EquityLog);
}.

(** ** Strategy logic *)

(** [outcomes_dict.get("YES", outcomes_dict.get("Up", 0.5))] *)
Definition yes_price_of (market : Market) : Qc :=
  default (default (Num.dec 5 10) (outcomes_dict market !! "Up"))
          (outcomes_dict market !! "YES").

Definition calculate_momentum (prices : list Qc) (period : nat) : result Qc :=
  if decide (length prices < period + 1)%nat then Ok 0
  else
    base ← neg_index prices period;
    if negb (Num.eqb base 0)
    then last ← neg_index prices 1; fdiv (last - base) base
    else Ok 0.

Definition fsum (l : list Qc) : Qc := foldl Qcplus 0 l.

Definition of_nat (n : nat) : Qc := Q2Qc (inject_Z (Z.of_nat n)).

(** [statistics.variance]: the sample variance, the squared deviations
    from the mean summed and divided by [n - 1]; it wants two data points. *)
Definition variance (l : list Qc) : result Qc :=
  if decide (length l < 2)%nat then Raise StatisticsError
  else
    let n := of_nat (length l) in
    let m := fsum l / n in
    Ok (fsum ((λ x, (x - m) * (x - m)) <$> l) / (n - 1)).

(** [statistics.stdev(l) > t] for a threshold [t >= 0].  The standard
    deviation is the square root of [variance l], which is irrational in
    general; the comparison is taken on the squares. *)
Definition stdev_gt (l : list Qc) (t : Qc) : result bool :=
  v ← variance l;
  Ok (Num.ltb (t * t) v).

Definition detect_market_regime (price_history : list Qc) : result Regime :=
  if decide (length price_history < 10)%nat then Ok unknown
  else
    let recent := last_n 10 price_history in
    last ← neg_index recent 1;
    first ← at_index recent 0;
    price_change ← fdiv (last - first) first;
    is_volatile ← stdev_gt recent (Num.dec 15 100);
    if (is_volatile : bool) then Ok volatile
    else if Num.ltb (Num.dec 5 100) price_change then Ok bull
    else if Num.ltb price_change (Num.dec (-5) 100) then Ok bear
    else Ok sideways.

Definition should_enter_mean_reversion (yes_price : Qc) (price_history : list Qc)
  : result (bool * Strategy) :=
  if Num.ltb yes_price MEAN_REVERSION_CONFIG.entry_threshold then
    regime ← detect_market_regime price_history;
    if bool_decide (regime ∈ [bull; sideways]) then Ok (true, mean_reversion)
    else Ok (false, no_strategy)
  else Ok (false, no_strategy).

Definition should_enter_reversal (price_history : list Qc)
  : result (bool * Strategy) :=
  if decide (length price_history < 10)%nat then Ok (false, no_strategy)
  else
    momentum_2 ← calculate_momentum price_history 2;
    momentum_10 ← calculate_momentum price_history 10;
    regime ← detect_market_regime price_history;
    if Num.ltb REVERSAL_CONFIG.momentum_2_threshold momentum_2
       && Num.ltb momentum_10 REVERSAL_CONFIG.momentum_10_threshold
       && bool_decide (regime ∈ [bear; volatile])
    then Ok (true, reversal)
    else Ok (false, no_strategy).

(** The body of [generate_signal]'s [try]. *)
Definition generate_signal_body (market : Market) (price_history : list Qc)
  : result (Signal * Strategy) :=
  let yes_price := yes_price_of market in
  '(mr_entry, mr_reason) ← should_enter_mean_reversion yes_price price_history;
  if (mr_entry : bool) then Ok (BUY, mr_reason)
  else
    '(rev_entry, rev_reason) ← should_enter_reversal price_history;
    if (rev_entry : bool) then Ok (BUY, rev_reason)
    else Ok (HOLD, no_strategy).

(** [None] is Python's [None], returned by the handler. *)
Definition generate_signal (market : Market) (price_history : list Qc)
  : option Signal * Strategy :=
  match generate_signal_body market price_history with
  | Ok (signal, reason) => (Some signal, reason)
  | Raise _ => (None, no_strategy)
  end.

(** ** Position tracking *)

Definition default_positions : Portfolio :=
  mkPortfolio [] BANKROLL BANKROLL BANKROLL 0 0.

Definition load_positions (fs : Files) : Portfolio :=
  default default_positions (POSITION_FILE fs).

Definition save_positions (fs : Files) (pf : Portfolio) : Files :=
  mkFiles (Some pf) (TRADES_FILE fs) (EQUITY_FILE fs).

Definition load_trades (fs : Files) : list Trade :=
  default [] (TRADES_FILE fs).

Definition save_trades (fs : Files) (trades : list Trade) : Files :=
  mkFiles (POSITION_FILE fs) (Some trades) (EQUITY_FILE fs).

(** [sum(p.get("unrealized_pnl", 0) for p in positions["positions"])] *)
Definition sum_unrealized (book : list Position) : Qc :=
  fsum (unrealized_pnl <$> book).

(** The three assignments to [position[...]] in [update_position_pnl]. *)
Definition mark_position (position : Position) (yes_price : Qc) : Position :=
  let current_value := shares position * yes_price in
  let cost_basis := shares position * entry_price position in
  let pnl := current_value - cost_basis in
  let pnl_pct := if negb (Num.eqb cost_basis 0) then pnl / cost_basis else 0 in
  {| market_id := market_id position;
     market_question := market_question position;
     entry_time := entry_time position;
     entry_price := entry_price position;
     shares := shares position;
     amount := amount position;
     strategy := strategy position;
     current_price := yes_price;
     unrealized_pnl := pnl;
     unrealized_pnl_pct := pnl_pct;
     stop_loss_pct := stop_loss_pct position;
     profit_target_pct := profit_target_pct position |}.

(** The [for] loop of [update_position_pnl].  [seen] are the positions the
    loop has passed, [rest] those still to visit; the list object is mutated
    in place, so the book at any moment is [seen ++ rest].  A zero
    [high_water] makes the drawdown division raise: the handler ends the
    loop and the fields already written stay written. *)
Fixpoint update_position_pnl_loop (market : Market) (yes_price : Qc)
    (seen rest : list Position) (pf : Portfolio) : Portfolio :=
  match rest with
  | [] => pf
  | position :: rest' =>
    if decide (market_id position = id market) then
      let position' := mark_position position yes_price in
      let book := seen ++ position' :: rest' in
      let equity' := cash pf + sum_unrealized book in
      let high_water' :=
        if Num.ltb (high_water pf) equity' then equity' else high_water pf in
      match fdiv (high_water' - equity') high_water' with
      | Raise _ =>
        mkPortfolio book (cash pf) equity' high_water' (max_drawdown pf)
                    (consecutive_losses pf)
      | Ok drawdown =>
        let max_drawdown' :=
          if Num.ltb (max_drawdown pf) drawdown then drawdown
          else max_drawdown pf in
        update_position_pnl_loop market yes_price (seen ++ [position']) rest'
          (mkPortfolio book (cash pf) equity' high_water' max_drawdown'
                       (consecutive_losses pf))
      end
    else update_position_pnl_loop market yes_price (seen ++ [position]) rest' pf
  end.

Definition update_position_pnl (pf : Portfolio) (market : Market) : Portfolio :=
  update_position_pnl_loop market (yes_price_of market) [] (positions pf) pf.

Definition execute_trade (fs : Files) (now : string) (pf : Portfolio)
    (market : Market) (signal : Signal) (strat : Strategy)
  : Files * Portfolio * bool :=
  if decide (signal ≠ BUY) then (fs, pf, false)
  else if decide (CIRCUIT_BREAKER ≤ consecutive_losses pf)%Z then (fs, pf, false)
  else
    let yes_price := yes_price_of market in
    let position_amount := cash pf * POSITION_SIZE in
    match fdiv position_amount yes_price with
    | Raise _ => (fs, pf, false)
    | Ok shares' =>
      if Num.ltb (cash pf) position_amount then (fs, pf, false)
      else
        let position :=
          {| market_id := id market;
             market_question := question market;
             entry_time := now;
             entry_price := yes_price;
             shares := shares';
             amount := position_amount;
             strategy := strat;
             current_price := yes_price;
             unrealized_pnl := 0;
             unrealized_pnl_pct := 0;
             stop_loss_pct :=
               if decide (strat = reversal) then REVERSAL_CONFIG.stop_loss
               else MEAN_REVERSION_CONFIG.stop_loss;
             profit_target_pct :=
               if decide (strat = reversal) then REVERSAL_CONFIG.profit_target
               else MEAN_REVERSION_CONFIG.profit_target |} in
        let book := positions pf ++ [position] in
        let pf' :=
          mkPortfolio book (cash pf - position_amount) (equity pf)
                      (high_water pf) (max_drawdown pf) (consecutive_losses pf) in
        let trade :=
          BuyTrade now (question market) strat yes_price shares' position_amount
                   (Z.of_nat (length book) - 1) in
        (save_trades fs (load_trades fs ++ [trade]), pf', true)
    end.

(** What the two [if]s of [check_exit_conditions] decide for one position;
    [None] when neither fires and the loop goes on. *)
Definition exit_decision (position : Position) : option ExitReason :=
  let pnl_pct := unrealized_pnl_pct position in
  if Num.leb (profit_target_pct position) pnl_pct then Some (profit_target pnl_pct)
  else if Num.leb pnl_pct (- stop_loss_pct position) then Some (stop_loss pnl_pct)
  else None.

Fixpoint check_exit_loop (market : Market) (book : list Position)
  : bool * ExitReason :=
  match book with
  | [] => (false, no_reason)
  | position :: rest =>
    if decide (market_id position ≠ id market) then check_exit_loop market rest
    else match exit_decision position with
         | Some reason => (true, reason)
         | None => check_exit_loop market rest
         end
  end.

Definition check_exit_conditions (pf : Portfolio) (market : Market)
  : bool * ExitReason :=
  check_exit_loop market (positions pf).

(** [close_position] acts on the first position of the market, at index [i],
    and returns from inside the loop. *)
Definition close_position (fs : Files) (now : string) (pf : Portfolio)
    (market : Market) (exit_reason : ExitReason) : Files * Portfolio * bool :=
  let yes_price := yes_price_of market in
  match list_find (λ p, market_id p = id market) (positions pf) with
  | Some (i, position) =>
    let realized_pnl := unrealized_pnl position in
    let sell_amount := shares position * yes_price in
    let losses :=
      if Num.ltb 0 realized_pnl then 0%Z else (consecutive_losses pf + 1)%Z in
    let trade :=
      SellTrade now (question market) yes_price (shares position) sell_amount
                realized_pnl (unrealized_pnl_pct position) exit_reason
                (Z.of_nat i) in
    (save_trades fs (load_trades fs ++ [trade]),
     mkPortfolio (delete i (positions pf)) (cash pf + sell_amount) (equity pf)
                 (high_water pf) (max_drawdown pf) losses,
     true)
  | None => (fs, pf, false)
  end.

(** ** The trading cycle *)

(** [sorted(markets, key=lambda m: m.get("liquidity", 0), reverse=True)]:
    a stable sort, so markets of equal liquidity keep their feed order. *)
Fixpoint insert_by_liquidity (m : Market) (l : list Market) : list Market :=
  match l with
  | [] => [m]
  | m' :: l' =>
    if Num.ltb (liquidity m) (liquidity m') then m' :: insert_by_liquidity m l'
    else m :: l
  end.

Definition sorted_by_liquidity (markets : list Market) : list Market :=
  foldr insert_by_liquidity [] markets.

(** What the loop of [run_trading_cycle] carries from market to market. *)
Record Cycle := mkCycle {
  files : Files;
  price_history_cache : gmap string (list Qc);
  book : Portfolio;
}.

(** The cache lines of the loop body: append the price, keep the last 20. *)
Definition update_history (cache : gmap string (list Qc)) (market : Market)
  : gmap string (list Qc) :=
  let history := default [] (cache !! id market) ++ [yes_price_of market] in
  <[id market :=
      if decide (20 < length history)%nat then last_n 20 history else history]>
    cache.

(** [any(p["market_id"] == market_id for p in positions["positions"])] *)
Definition has_position (pf : Portfolio) (market_id' : string) : bool :=
  existsb (λ p, bool_decide (market_id p = market_id')) (positions pf).

Definition mark_step (c : Cycle) (market : Market) : Cycle :=
  mkCycle (files c) (update_history (price_history_cache c) market)
          (update_position_pnl (book c) market).

Definition exit_step (now : string) (c : Cycle) (market : Market) : Cycle :=
  let '(should_exit, exit_reason) := check_exit_conditions (book c) market in
  if should_exit then
    let '(fs, pf, _) := close_position (files c) now (book c) market exit_reason in
    mkCycle fs (price_history_cache c) pf
  else c.

(** The signal the loop body asks for: [None] when the market already has a
    position and [generate_signal] is not called. *)
Definition entry_signal (c : Cycle) (market : Market)
  : option (option Signal * Strategy) :=
  if negb (has_position (book c) (id market)) then
    Some (generate_signal market
            (default [] (price_history_cache c !! id market)))
  else None.

Definition entry_step (now : string) (c : Cycle) (market : Market) : Cycle :=
  match entry_signal c market with
  | Some (Some signal, strat) =>
    let '(fs, pf, _) := execute_trade (files c) now (book c) market signal strat in
    mkCycle fs (price_history_cache c) pf
  | _ => c
  end.

Definition process_market (now : string) (c : Cycle) (market : Market) : Cycle :=
  entry_step now (exit_step now (mark_step c market) market) market.

Definition equity_log_of (now : string) (pf : Portfolio) : EquityLog :=
  mkEquityLog now (cash pf) (equity pf) (length (positions pf)) (max_drawdown pf).

(** [markets] is what [get_crypto_markets()] returned: the filtered feed, or
    the empty list when the request or its parsing failed. *)
Definition run_trading_cycle (now : string) (fs : Files)
    (cache : gmap string (list Qc)) (markets : list Market) : Cycle :=
  let pf := load_positions fs in
  match markets with
  | [] => mkCycle fs cache pf
  | _ =>
    let markets := take 5 (sorted_by_liquidity markets) in
    let c := foldl (process_market now) (mkCycle fs cache pf) markets in
    let pf := book c in
    let pf :=
      mkPortfolio (positions pf) (cash pf) (cash pf + sum_unrealized (positions pf))
                  (high_water pf) (max_drawdown pf) (consecutive_losses pf) in
    let fs := save_positions (files c) pf in
    let equity_history := default [] (EQUITY_FILE fs) ++ [equity_log_of now pf] in
    mkCycle (mkFiles (POSITION_FILE fs) (TRADES_FILE fs) (Some equity_history))
            (price_history_cache c) pf
  end.

(** ** Worked inputs *)

Module Sample.

Definition price (n : Z) : Qc := Num.dec n 100.

Definition market (name : string) (outcomes : gmap string Qc) : Market :=
  mkMarket name ("Will " +:+ name +:+ " go up?") (Num.dec 5000 1) outcomes.

Definition quote (name : string) (cents : Z) : Market :=
  market name {[ "YES" := price cents ]}.

(** A mean-reversion position of 0.6 shares on [name], bought at [entry]
    cents and last marked at [cents] cents. *)
Definition held (name : string) (entry cents : Z) : Position :=
  mark_position
    (mkPosition name ("Will " +:+ name +:+ " go up?") "t0" (price entry)
                (Num.dec 6 10) (Num.dec 6 10 * price entry) mean_reversion
                (price entry) 0 0 MEAN_REVERSION_CONFIG.stop_loss
                MEAN_REVERSION_CONFIG.profit_target)
    (price cents).

(** A position bought at 0.50 and last marked at 0.48. *)
Definition btc_position : Position := held "btc" 50 48.

Definition portfolio : Portfolio :=
  mkPortfolio [btc_position] (Num.dec 997 10) (Num.dec 99688 1000) BANKROLL 0 0.

Definition disk : Files := mkFiles (Some portfolio) (Some []) (Some []).

End Sample.

Module Streak.
(** Three positions under water and one well above its entry. *)
Definition portfolio : Portfolio :=
  mkPortfolio
    [Sample.held "ada" 50 44; Sample.held "bnb" 50 44;
     Sample.held "sol" 50 44; Sample.held "xrp" 39 65]
    (Num.dec 98 1) (Num.dec 98048 1000) BANKROLL 0 0.
Definition disk : Files := mkFiles (Some portfolio) (Some []) (Some []).
Definition loss : ExitReason := stop_loss (Num.dec (-12) 100).
Definition gain : ExitReason := profit_target (Num.dec 2 3).
End Streak.

Module Unquoted.
(** A market whose outcomes are spelled Yes and No. *)
Definition market : Market :=
  Sample.market "doge" {[ "Yes" := Sample.price 39; "No" := Sample.price 61 ]}.
(** A book that holds it, bought at 0.39. *)
Definition portfolio : Portfolio :=
  mkPortfolio [Sample.held "doge" 39 39] (Num.dec 997 10) (Num.dec 997 10)
              BANKROLL 0 0.
(** Eleven prices that fall by a sixth and then turn up. *)
Definition history : list Qc :=
  Sample.price <$> [60; 60; 58; 56; 54; 52; 50; 48; 46; 45; 50]%Z.
End Unquoted.

(** ** Notions the statements use *)

(** The equity curve after a cycle is the one before it plus one point. *)
Definition appends_one_equity_point (before after : Files) : Prop :=
  ∃ entry, default [] (EQUITY_FILE after) = default [] (EQUITY_FILE before) ++ [entry].

(** The equity invariant of the portfolio document. *)
Definition equity_consistent (pf : Portfolio) : Prop :=
  equity pf = cash pf + sum_unrealized (positions pf).

(** [pf'] has the cash, the loss counter and the instruments of [pf], in the
    same order; its high-water mark and max drawdown are no lower. *)
Record marks (pf pf' : Portfolio) : Prop := mkMarks {
  marks_ids : market_id <$> positions pf' = market_id <$> positions pf;
  marks_cash : cash pf' = cash pf;
  marks_losses : consecutive_losses pf' = consecutive_losses pf;
  marks_high_water : high_water pf ≤ high_water pf';
  marks_max_drawdown : max_drawdown pf ≤ max_drawdown pf';
}.

(** Neither the high-water mark nor the max drawdown is lower in [pf']. *)
Definition peaks_le (pf pf' : Portfolio) : Prop :=
  high_water pf ≤ high_water pf' ∧ max_drawdown pf ≤ max_drawdown pf'.

(** A run of the host process: one cycle per trigger, each with its own
    timestamp and feed, the files and the cache handed from one to the next. *)
Fixpoint run_cycles (triggers : list (string * list Market)) (fs : Files)
    (cache : gmap string (list Qc)) : Files * gmap string (list Qc) :=
  match triggers with
  | [] => (fs, cache)
  | (now, markets) :: rest =>
    let c := run_trading_cycle now fs cache markets in
    run_cycles rest (files c) (price_history_cache c)
  end.

(** The instruments of the open positions, in book order. *)
Definition open_instruments (pf : Portfolio) : list string :=
  market_id <$> positions pf.

Definition unique_instruments (pf : Portfolio) : Prop :=
  NoDup (open_instruments pf).

(** Every portfolio the loop holds, in order: after the mark, after the
    exit check and after the entry check of each market. *)
Fixpoint loop_trace (now : string) (c : Cycle) (markets : list Market)
  : list Cycle :=
  match markets with
  | [] => []
  | market :: rest =>
    let c1 := mark_step c market in
    let c2 := exit_step now c1 market in
    let c3 := entry_step now c2 market in
    c1 :: c2 :: c3 :: loop_trace now c3 rest
  end.

(** The portfolio a cycle starts from, those its loop passes through, and
    the one it returns. *)
Definition cycle_trace (now : string) (fs : Files)
    (cache : gmap string (list Qc)) (markets : list Market) : list Cycle :=
  let c := mkCycle fs cache (load_positions fs) in
  match markets with
  | [] => [c]
  | _ => c :: loop_trace now c (take 5 (sorted_by_liquidity markets))
  end ++ [run_trading_cycle now fs cache markets].

(** The market with its outcome prices replaced by a single YES quote. *)
Definition quoted (market : Market) (yes_price : Qc) : Market :=
  mkMarket (id market) (question market) (liquidity market) {[ "YES" := yes_price ]}.

(** The market with another liquidity figure. *)
Definition with_liquidity (market : Market) (liquidity' : Qc) : Market :=
  mkMarket (id market) (question market) liquidity' (outcomes_dict market).

Module Thin.
(** A market under [MIN_LIQUIDITY], quoted at 0.39. *)
Definition market : Market :=
  mkMarket "eth" "Will eth go up?" (Num.dec 50 1) {[ "YES" := Sample.price 39 ]}.
Definition disk : Files := mkFiles None None None.
End Thin.

(** The PnL that closing the market's position would realize: the
    [unrealized_pnl] of the first position of that market, if there is one. *)
Definition closed_pnl (pf : Portfolio) (market : Market) : option Qc :=
  (λ found, unrealized_pnl found.2)
    <$> list_find (λ p, market_id p = id market) (positions pf).

(** The portfolio with another loss counter. *)
Definition with_losses (pf : Portfolio) (n : Z) : Portfolio :=
  mkPortfolio (positions pf) (cash pf) (equity pf) (high_water pf)
              (max_drawdown pf) n.

(** The classification as the specification words it, over the last ten
    prices: volatility first, then the return [(last - first) / first]
    against the two thresholds.  Division is the total one of [Qc]. *)
Definition window_return (window : list Qc) : Qc :=
  let first := default 0 (window !! 0%nat) in
  (default 0 (last window) - first) / first.

(** The sample variance of the window, with total division. *)
Definition window_variance (window : list Qc) : Qc :=
  let n := of_nat (length window) in
  let m := fsum window / n in
  fsum ((λ x, (x - m) * (x - m)) <$> window) / (n - 1).

Definition regime_by_precedence (price_history : list Qc) : Regime :=
  if decide (length price_history < 10)%nat then unknown
  else
    let window := last_n 10 price_history in
    if Num.ltb (Num.dec 15 100 * Num.dec 15 100) (window_variance window)
    then volatile
    else if Num.ltb (Num.dec 5 100) (window_return window) then bull
    else if Num.ltb (window_return window) (Num.dec (-5) 100) then bear
    else sideways.

Module ZeroOpen.
(** Ten prices swinging between 0 and 0.50, the window opening at 0. *)
Definition history : list Qc :=
  Sample.price <$> [0; 50; 0; 50; 0; 50; 0; 50; 0; 50]%Z.
Definition market : Market := Sample.market "sol" {[ "YES" := Sample.price 50 ]}.
End ZeroOpen.

Module Example.
(** The ten prices of the mean-reversion example. *)
Definition history : list Qc :=
  Sample.price <$> [50; 48; 45; 43; 41; 40; 39; 42; 44; 46]%Z.
(** The instrument at its current price 0.39, and later at 0.65. *)
Definition market : Market := Sample.market "btc" {[ "YES" := Sample.price 39 ]}.
Definition later : Market := quoted market (Sample.price 65).
Definition disk : Files := mkFiles None None None.
End Example.

(** ** Further notions *)

(** [prices[-k]] where the list has it, 0 where it does not. *)
Definition nth_last (prices : list Qc) (k : nat) : Qc :=
  default 0 (prices !! (length prices - k)%nat).

(** The relative change from [prices[-period]] to [prices[-1]]; 0 when
    there are not more than [period] prices or [prices[-period]] is 0. *)
Definition momentum (prices : list Qc) (period : nat) : Qc :=
  if decide (length prices ≤ period)%nat then 0
  else if decide (nth_last prices period = 0) then 0
  else (nth_last prices 1 - nth_last prices period) / nth_last prices period.

(** The reversal rule on a history whose regime is known. *)
Definition reversal_fires (price_history : list Qc) (regime : Regime) : bool :=
  bool_decide (11 ≤ length price_history)%nat
  && Num.ltb REVERSAL_CONFIG.momentum_2_threshold (momentum price_history 2)
  && Num.ltb (momentum price_history 10) REVERSAL_CONFIG.momentum_10_threshold
  && bool_decide (regime ∈ [bear; volatile]).

(** What [update_position_pnl] does to the position book when it completes:
    the positions of the market are marked at the price, the others kept. *)
Definition mark_book (market : Market) (book : list Position) : list Position :=
  (λ p, if decide (market_id p = id market)
        then mark_position p (yes_price_of market) else p) <$> book.

(** [sorted(l, key=key, reverse=True)] over keys of one type, compared by
    [lt], Python's [<] on that type: the sort is stable, so elements none
    of which is below the other keep their order. *)
Section sorted.
Context {A K : Type} (lt : K → K → bool) (key : A → K).

Fixpoint insert_by (x : A) (l : list A) : list A :=
  match l with
  | [] => [x]
  | y :: l' => if lt (key x) (key y) then y :: insert_by x l' else x :: l
  end.

Definition sorted_by (l : list A) : list A := foldr insert_by [] l.

(** The order [reverse=True] leaves the elements in: no element is below
    one that comes after it. *)
Definition not_below (a b : A) : Prop := lt (key a) (key b) = false.
End sorted.

(** What a sort needs of [<]: it is asymmetric, and a key that is below
    another is below or above every third one. *)
Definition strict_weak_order {K : Type} (lt : K → K → bool) : Prop :=
  (∀ x y, lt x y = true → lt y x = false) ∧
  (∀ x y z, lt x z = true → lt x y = true ∨ lt y z = true).

(** [s < t] on [str], the order the feed's [liquidity] is sorted in when
    it is served as text: by the first letter that differs, a proper
    prefix first. *)
Fixpoint str_lt (s t : string) : bool :=
  match s, t with
  | _, EmptyString => false
  | EmptyString, String _ _ => true
  | String a s', String b t' =>
    if (nat_of_ascii a <? nat_of_ascii b)%nat then true
    else if (nat_of_ascii b <? nat_of_ascii a)%nat then false
    else str_lt s' t'
  end.

(** The [__main__] block: one cycle, started on an empty price cache. *)
Definition main (now : string) (fs : Files) (markets : list Market) : Cycle :=
  run_trading_cycle now fs ∅ markets.

Definition is_sell (trade : Trade) : bool :=
  match trade with
  | SellTrade _ _ _ _ _ _ _ _ _ => true
  | BuyTrade _ _ _ _ _ _ _ => false
  end.

(** What one part of the loop may do to the files and the book: the trade
    log gains the records [new], at most [n] of them, the other two files
    stay as they are, and the book grows by at most [grow] positions. *)
Record logs (n grow : nat) (c c' : Cycle) (new : list Trade) : Prop := mkLogs {
  logs_trades : load_trades (files c') = load_trades (files c) ++ new;
  logs_count : (length new ≤ n)%nat;
  logs_positions : POSITION_FILE (files c') = POSITION_FILE (files c);
  logs_equity : EQUITY_FILE (files c') = EQUITY_FILE (files c);
  logs_book :
    (length (positions (book c')) ≤ length (positions (book c)) + grow)%nat;
}.

(** Every cached history has at most [n] prices. *)
Definition short_cache (n : nat) (cache : gmap string (list Qc)) : Prop :=
  ∀ k h, cache !! k = Some h → (length h ≤ n)%nat.

(** ** dashboard.py *)

Module Dashboard.

(** The dictionary [calculate_metrics] returns. *)
Record Metrics := mkMetrics {
  total_trades : nat;
  winning_trades : nat;
  losing_trades : nat;
  win_rate : Qc;
  total_pnl : Qc;
  avg_win : Qc;
  avg_loss : Qc;
  profit_factor : Qc;
  max_drawdown : Qc;
  sharpe_ratio : Qc;
}.

(** [t["realized_pnl"]] of the records with [t["type"] == "SELL"]. *)
Definition sells (trades : list Trade) : list Qc :=
  omap (λ t, match t with
             | SellTrade _ _ _ _ _ realized_pnl _ _ _ => Some realized_pnl
             | BuyTrade _ _ _ _ _ _ _ => None
             end) trades.

(** [statistics.mean] of a list that is not empty. *)
Definition mean (l : list Qc) : result Qc := fdiv (fsum l) (of_nat (length l)).

Definition fabs (x : Qc) : Qc := if Num.ltb x 0 then - x else x.

(** [max(x :: l)]: the first of the largest elements. *)
Definition max_list (x : Qc) (l : list Qc) : Qc :=
  foldl (λ best y, if Num.ltb best y then y else best) x l.

(** [[f(x) for x in l]] where [f] may raise. *)
Fixpoint traverse {A B} (f : A → result B) (l : list A) : result (list B) :=
  match l with
  | [] => Ok []
  | x :: l' => y ← f x; ys ← traverse f l'; Ok (y :: ys)
  end.

(** [[(equities[i+1] - equities[i]) / equities[i] for i in range(len(equities)-1)]] *)
Fixpoint returns_of (equities : list Qc) : result (list Qc) :=
  match equities with
  | e :: (e' :: _) as rest =>
    r ← fdiv (e' - e) e; rs ← returns_of rest; Ok (r :: rs)
  | _ => Ok []
  end.

Section metrics.
(** The square root of floats, [statistics.stdev] being the root of
    [statistics.variance] and [252**0.5] the root of 252. *)
Variable sqrt : Qc → Qc.

Definition stdev (l : list Qc) : result Qc := v ← variance l; Ok (sqrt v).

Definition sharpe_of (equities : list Qc) : result Qc :=
  if decide (1 < length equities)%nat then
    returns ← returns_of equities;
    positive ←
      (if decide (returns ≠ []) then s ← stdev returns; Ok (Num.ltb 0 s)
       else Ok false);
    if (positive : bool) then
      m ← mean returns;
      s ← stdev returns;
      fdiv (m * Num.dec 252 1) (s * sqrt (Num.dec 252 1))
    else Ok 0
  else Ok 0.

(** The [if equity_history:] block: the max drawdown and the Sharpe ratio
    of the equity curve. *)
Definition equity_metrics (equity_history : list EquityLog) : result (Qc * Qc) :=
  match log_equity <$> equity_history with
  | [] => Ok (0, 0)
  | (first :: _) as equities =>
    drawdowns ← traverse (λ e, fdiv (first - e) first) equities;
    let max_drawdown :=
      match drawdowns ++ [0] with
      | d :: ds => max_list d ds
      | [] => 0
      end in
    sharpe_ratio ← sharpe_of equities;
    Ok (max_drawdown, sharpe_ratio)
  end.

Definition calculate_metrics (trades : list Trade) (equity_history : list EquityLog)
  : result Metrics :=
  let sells := sells trades in
  if decide (sells = []) then Ok (mkMetrics 0 0 0 0 0 0 0 0 0 0)
  else
    let wins := filter (λ pnl, 0 < pnl) sells in
    let losses := filter (λ pnl, pnl ≤ 0) sells in
    let total_pnl := fsum sells in
    win_rate ← fdiv (of_nat (length wins)) (of_nat (length sells));
    avg_win ← (if decide (wins ≠ []) then mean wins else Ok 0);
    avg_loss ← (if decide (losses ≠ []) then mean losses else Ok 0);
    let gross_profit := if decide (wins ≠ []) then fsum wins else 0 in
    let gross_loss := if decide (losses ≠ []) then fabs (fsum losses) else 0 in
    profit_factor ←
      (if Num.ltb 0 gross_loss then fdiv gross_profit gross_loss else Ok 0);
    '(max_drawdown, sharpe_ratio) ← equity_metrics equity_history;
    Ok (mkMetrics (length sells) (length wins) (length losses) win_rate
                  total_pnl avg_win avg_loss profit_factor max_drawdown
                  sharpe_ratio).
End metrics.

End Dashboard.

(** The loss counter a ledger of realized PnLs leads to: every close
    with a positive PnL puts it back to 0, every other close adds one. *)
Definition losing_streak (pnls : list Qc) : Z :=
  foldl (λ n pnl, if Num.ltb 0 pnl then 0 else n + 1)%Z 0%Z pnls.

(** The saved loss counter is the one the saved trade log leads to. *)
Definition counter_matches_log (fs : Files) : Prop :=
  consecutive_losses (load_positions fs)
    = losing_streak (Dashboard.sells (load_trades fs)).

Module Ledger.
(** Two winning closes, one losing close and the entries before them. *)
Definition sell (pnl : Qc) : Trade :=
  SellTrade "t" "Will btc go up?" (Sample.price 50) 1 (Sample.price 50) pnl
            (Sample.price 10) no_reason 0.
Definition buy : Trade :=
  BuyTrade "t" "Will btc go up?" mean_reversion (Sample.price 40) 1
           (Sample.price 40) 0.
Definition trades : list Trade :=
  [buy; sell (Sample.price 10); buy; sell (Sample.price (-5)); buy;
   sell (Sample.price 20)].
Definition point (equity : Z) : EquityLog :=
  mkEquityLog "t" (Num.dec equity 1) (Num.dec equity 1) 0 0.
Definition curve : list EquityLog := [point 100; point 90; point 110; point 99].
End Ledger.

(** ** Market discovery *)

(** One entry of the [/markets] answer after JSON decoding, with the keys
    [get_crypto_markets] and the cycle read and the types the API serves
    them in: flags, numbers, a question, the outcome names and their
    prices.  A missing flag is a false one. *)
Module Listing.
Record t := mk {
  id : string;
  question : string;
  liquidity : Qc;
  closed : bool;
  active : bool;
  liquidityNum : Qc;
  outcomes : list string;
  outcomePrices : list Qc;
}.
End Listing.

Definition crypto_keywords : list string :=
  ["BTC"; "ETH"; "SOL"; "bitcoin"; "ethereum"; "solana"].
Definition outcome_keywords : list string :=
  ["up"; "down"; "higher"; "lower"; "+"; "-"].

(** [kw in text] on strings. *)
Fixpoint contains (kw text : string) : bool :=
  String.prefix kw text ||
  match text with
  | EmptyString => false
  | String _ rest => contains kw rest
  end.

(** [{o: prices[i] for i, o in enumerate(outcomes)}], from index [i] on. *)
Fixpoint outcomes_dict_loop (prices : list Qc) (i : nat) (outcomes : list string)
    (d : gmap string Qc) : result (gmap string Qc) :=
  match outcomes with
  | [] => Ok d
  | o :: rest =>
    p ← at_index prices i;
    outcomes_dict_loop prices (S i) rest (<[o := p]> d)
  end.

Section discovery.
(** [str.upper]. *)
Variable upper : string → string.

Definition is_crypto (market : Listing.t) : bool :=
  let question := upper (Listing.question market) in
  existsb (λ kw, contains kw question) crypto_keywords.

Definition outcome_text (market : Listing.t) : string :=
  match Listing.outcomes market with
  | [] => ""
  | outcomes => String.concat " " (upper <$> outcomes)
  end.

Definition is_directional (market : Listing.t) : bool :=
  existsb (λ kw, contains kw (outcome_text market)) outcome_keywords.

(** The body of the loop over the answer. *)
Definition discover (crypto_markets : list Market) (market : Listing.t)
  : list Market :=
  if Listing.closed market || negb (Listing.active market) then crypto_markets
  else if Num.ltb (Listing.liquidityNum market) MIN_LIQUIDITY then crypto_markets
  else
    let is_binary := bool_decide (length (Listing.outcomes market) = 2%nat) in
    if is_crypto market && is_binary && is_directional market then
      match outcomes_dict_loop (Listing.outcomePrices market) 0
                               (Listing.outcomes market) ∅ with
      | Ok outcomes_dict =>
        crypto_markets ++ [mkMarket (Listing.id market) (Listing.question market)
                                    (Listing.liquidity market) outcomes_dict]
      | Raise _ => crypto_markets
      end
    else crypto_markets.

(** [fetched] is the decoded answer, or [None] when the request or the
    decoding raised. *)
Definition get_crypto_markets (fetched : option (list Listing.t)) : list Market :=
  match fetched with
  | Some all_markets => foldl discover [] all_markets
  | None => []
  end.
End discovery.

(** The letters of a string. *)
Fixpoint letters (s : string) : list Ascii.ascii :=
  match s with
  | EmptyString => []
  | String c rest => c :: letters rest
  end.

Definition is_lower (c : Ascii.ascii) : bool :=
  (97 <=? Ascii.nat_of_ascii c)%nat && (Ascii.nat_of_ascii c <=? 122)%nat.

(** What the engine needs of [str.upper]: its result has no letter of
    [a-z], and it makes no plus or minus sign that was not there. *)
Definition no_lower (s : string) : Prop :=
  ∀ c, c ∈ letters s → is_lower c = false.
Definition signs : list Ascii.ascii := ["+"%char; "-"%char].
Definition unsigned (s : string) : Prop :=
  ∀ c, c ∈ letters s → c ∉ signs.
Definition upper_spec (upper : string → string) : Prop :=
  (∀ s, no_lower (upper s)) ∧ (∀ s, unsigned s → unsigned (upper s)).

(** The quote the engine reads off a market with outcomes [a] and [b]
    priced [p] and [q]. *)
Definition quote_of (a b : string) (p q : Qc) : Qc :=
  if decide (b = "YES") then q
  else if decide (a = "YES") then p
  else if decide (b = "Up") then q
  else if decide (a = "Up") then p
  else Num.dec 5 10.

(** What makes [get_crypto_markets] hand a listing on, and as what. *)
Definition listed (upper : string → string) (l : Listing.t) (m : Market) : Prop :=
  Listing.closed l = false ∧ Listing.active l = true ∧
  MIN_LIQUIDITY ≤ Listing.liquidityNum l ∧
  is_crypto upper l = true ∧ is_directional upper l = true ∧
  ∃ a b p q rest,
    Listing.outcomes l = [a; b] ∧ Listing.outcomePrices l = p :: q :: rest ∧
    m = mkMarket (Listing.id l) (Listing.question l) (Listing.liquidity l)
                 (<[b := q]> {[a := p]}).

Module Ascii7.
(** [str.upper] on text of [a-z] and other bytes it leaves alone. *)
Definition upper_letter (c : Ascii.ascii) : Ascii.ascii :=
  if is_lower c then Ascii.ascii_of_nat (Ascii.nat_of_ascii c - 32) else c.
Fixpoint upper (s : string) : string :=
  match s with
  | EmptyString => EmptyString
  | String c rest => String (upper_letter c) (upper rest)
  end.
(** Two listings that differ in how the outcomes are named. *)
Definition named (up down : string) : Listing.t :=
  Listing.mk "btc" "Will BTC go up?" (Num.dec 500 1) false true (Num.dec 500 1)
             [up; down] [Num.dec 39 100; Num.dec 61 100].
End Ascii7.

(** * Properties *)

(** ** Comparisons *)

Lemma Num_ltb_lt x y : Num.ltb x y = true ↔ x < y.
Proof.
  unfold Num.ltb, Qclt. rewrite negb_true_iff, <- not_true_iff_false, Qle_bool_iff.
  split; [apply Qnot_le_lt | apply Qlt_not_le].
Qed.

Lemma Num_leb_le x y : Num.leb x y = true ↔ x ≤ y.
Proof. unfold Num.leb, Qcle. apply Qle_bool_iff. Qed.

Lemma Num_eqb_eq x y : Num.eqb x y = true ↔ x = y.
Proof.
  unfold Num.eqb. rewrite Qeq_bool_iff. split; [apply Qc_is_canon | by intros ->].
Qed.

Lemma Num_ltb_irrefl x : Num.ltb x x = false.
Proof.
  apply not_true_iff_false. rewrite Num_ltb_lt. intros H.
  by destruct (Qclt_not_eq x x).
Qed.

Lemma Num_ltb_false_le x y : Num.ltb x y = false ↔ y ≤ x.
Proof.
  rewrite <- not_true_iff_false, Num_ltb_lt. split; [apply Qcnot_lt_le | apply Qcle_not_lt].
Qed.

(** ** The empty feed *)

(** C1, as stated, fails: on an empty feed the cycle returns before the
    equity curve is touched, so no point is appended. *)
Lemma empty_feed_appends_nothing :
  ¬ appends_one_equity_point Sample.disk
      (files (run_trading_cycle "t1" Sample.disk ∅ [])).
Proof.
  intros [entry H]. cbn in H. discriminate H.
Qed.

Lemma run_trading_cycle_empty now fs cache :
  run_trading_cycle now fs cache [] = mkCycle fs cache (load_positions fs).
Proof. reflexivity. Qed.

(** C1, amended: on an empty feed the cycle hands back the portfolio it
    loaded, so cash, open positions and equity are the loaded ones, and it
    leaves the trade log, the saved portfolio, the equity curve and the
    price cache as they were: nothing is recomputed, saved or appended. *)
Theorem empty_feed_skips_cycle now fs cache :
  let c := run_trading_cycle now fs cache [] in
  book c = load_positions fs ∧
  TRADES_FILE (files c) = TRADES_FILE fs ∧
  POSITION_FILE (files c) = POSITION_FILE fs ∧
  EQUITY_FILE (files c) = EQUITY_FILE fs ∧
  price_history_cache c = cache.
Proof. by rewrite run_trading_cycle_empty. Qed.

(** ** Equity *)

Lemma run_trading_cycle_nonempty now fs cache markets :
  markets ≠ [] →
  let c := foldl (process_market now) (mkCycle fs cache (load_positions fs))
             (take 5 (sorted_by_liquidity markets)) in
  let pf := mkPortfolio (positions (book c)) (cash (book c))
              (cash (book c) + sum_unrealized (positions (book c)))
              (high_water (book c)) (max_drawdown (book c))
              (consecutive_losses (book c)) in
  run_trading_cycle now fs cache markets =
    mkCycle (mkFiles (Some pf) (TRADES_FILE (files c))
               (Some (default [] (EQUITY_FILE (files c)) ++ [equity_log_of now pf])))
            (price_history_cache c) pf.
Proof. destruct markets; [done | reflexivity]. Qed.

Lemma default_positions_consistent : equity_consistent default_positions.
Proof. unfold equity_consistent. cbn. by rewrite Qcplus_0_r. Qed.

Lemma run_trading_cycle_equity now fs cache markets :
  let c := run_trading_cycle now fs cache markets in
  (markets ≠ [] →
     POSITION_FILE (files c) = Some (book c) ∧ equity_consistent (book c)) ∧
  (equity_consistent (load_positions fs) →
     equity_consistent (load_positions (files c))).
Proof.
  destruct markets as [|m ms]; cbn zeta.
  - split; [done | by rewrite run_trading_cycle_empty].
  - rewrite run_trading_cycle_nonempty by done. cbn. by repeat split.
Qed.

Lemma run_cycles_equity triggers :
  ∀ fs cache,
    equity_consistent (load_positions fs) →
    equity_consistent (load_positions (run_cycles triggers fs cache).1).
Proof.
  induction triggers as [|[now markets] rest IH]; intros fs cache Hfs; [done|].
  cbn. apply IH. by apply run_trading_cycle_equity.
Qed.

(** C2: whenever the cycle reaches its equity recompute (the feed is not
    empty), the portfolio it saves is the one it returns and its equity is
    cash plus the sum of the open positions' unrealized PnL.  A cycle on an
    empty feed writes nothing, so over any run of cycles a saved portfolio
    that satisfies the equation keeps satisfying it, as does a run that
    starts without a saved portfolio. *)
Theorem equity_recomputed_and_persisted now fs cache markets :
  let c := run_trading_cycle now fs cache markets in
  (markets ≠ [] →
     POSITION_FILE (files c) = Some (book c) ∧ equity_consistent (book c)) ∧
  (equity_consistent (load_positions fs) →
     equity_consistent (load_positions (files c)) ∧
     ∀ triggers,
       equity_consistent (load_positions (run_cycles triggers fs cache).1)) ∧
  (∀ triggers trades curve,
     equity_consistent
       (load_positions (run_cycles triggers (mkFiles None trades curve) cache).1)).
Proof.
  pose proof (run_trading_cycle_equity now fs cache markets) as [Hsaved Hkept].
  split; [exact Hsaved|]. split.
  - intros Hfs. split; [by apply Hkept|].
    intros triggers. by apply run_cycles_equity.
  - intros triggers trades curve. apply run_cycles_equity.
    apply default_positions_consistent.
Qed.

(** ** What marking to market may change *)

Lemma marks_refl pf : marks pf pf.
Proof. split; (done || apply Qcle_refl). Qed.

Lemma marks_trans pf1 pf2 pf3 : marks pf1 pf2 → marks pf2 pf3 → marks pf1 pf3.
Proof.
  intros [] []. split; try congruence; eapply Qcle_trans; eassumption.
Qed.

Lemma raise_to_le (x y : Qc) : x ≤ (if Num.ltb x y then y else x).
Proof.
  destruct (Num.ltb x y) eqn:E; [|apply Qcle_refl].
  apply Qclt_le_weak. by apply Num_ltb_lt.
Qed.

Lemma mark_position_id position yes_price :
  market_id (mark_position position yes_price) = market_id position.
Proof. reflexivity. Qed.

Lemma update_position_pnl_loop_marks market yes_price rest :
  ∀ seen pf, positions pf = seen ++ rest →
    marks pf (update_position_pnl_loop market yes_price seen rest pf).
Proof.
  induction rest as [|position rest IH]; intros seen pf Hbook; cbn.
  - apply marks_refl.
  - case_decide.
    + destruct (fdiv _ _) as [drawdown|e].
      * eapply marks_trans; [|apply IH; cbn; by rewrite <- app_assoc].
        split; cbn; try done; try apply raise_to_le.
        rewrite Hbook, !fmap_app. done.
      * split; cbn; try done; try apply raise_to_le; try apply Qcle_refl.
        rewrite Hbook, !fmap_app. done.
    + apply IH. by rewrite <- app_assoc.
Qed.

Lemma update_position_pnl_marks pf market :
  marks pf (update_position_pnl pf market).
Proof. by apply update_position_pnl_loop_marks. Qed.

(** ** What trading may change *)

Lemma execute_trade_peaks fs now pf market signal strat :
  let pf' := (execute_trade fs now pf market signal strat).1.2 in
  high_water pf' = high_water pf ∧ max_drawdown pf' = max_drawdown pf.
Proof.
  unfold execute_trade. repeat case_decide; try done.
  all: destruct (fdiv _ _); [|done]; by destruct (Num.ltb _ _).
Qed.

Lemma close_position_peaks fs now pf market reason :
  let pf' := (close_position fs now pf market reason).1.2 in
  high_water pf' = high_water pf ∧ max_drawdown pf' = max_drawdown pf.
Proof.
  unfold close_position. by destruct (list_find _ _) as [[i position]|].
Qed.

(** ** Peaks: the high-water mark and the max drawdown *)

Lemma peaks_le_refl pf : peaks_le pf pf.
Proof. split; apply Qcle_refl. Qed.

Lemma peaks_le_trans pf1 pf2 pf3 :
  peaks_le pf1 pf2 → peaks_le pf2 pf3 → peaks_le pf1 pf3.
Proof. intros [] []. split; eapply Qcle_trans; eassumption. Qed.

Lemma peaks_le_eq pf pf' :
  high_water pf' = high_water pf ∧ max_drawdown pf' = max_drawdown pf →
  peaks_le pf pf'.
Proof. intros [Hh Hd]. unfold peaks_le. rewrite Hh, Hd. apply peaks_le_refl. Qed.

Lemma mark_step_peaks c market : peaks_le (book c) (book (mark_step c market)).
Proof.
  destruct (update_position_pnl_marks (book c) market). by split.
Qed.

Lemma exit_step_peaks now c market :
  peaks_le (book c) (book (exit_step now c market)).
Proof.
  unfold exit_step.
  destruct (check_exit_conditions _ _) as [[] reason]; [|apply peaks_le_refl].
  pose proof (close_position_peaks (files c) now (book c) market reason) as H.
  destruct (close_position _ _ _ _ _) as [[fs pf] ok]. by apply peaks_le_eq.
Qed.

Lemma entry_step_peaks now c market :
  peaks_le (book c) (book (entry_step now c market)).
Proof.
  unfold entry_step.
  destruct (entry_signal c market) as [[[signal|] strat]|];
    try apply peaks_le_refl.
  pose proof (execute_trade_peaks (files c) now (book c) market signal strat) as H.
  destruct (execute_trade _ _ _ _ _ _) as [[fs pf] ok]. by apply peaks_le_eq.
Qed.

Lemma process_market_peaks now c market :
  peaks_le (book c) (book (process_market now c market)).
Proof.
  unfold process_market.
  eapply peaks_le_trans; [apply mark_step_peaks|].
  eapply peaks_le_trans; [apply exit_step_peaks|apply entry_step_peaks].
Qed.

Lemma foldl_process_market_peaks now markets :
  ∀ c, peaks_le (book c) (book (foldl (process_market now) c markets)).
Proof.
  induction markets as [|m ms IH]; intros c; cbn; [apply peaks_le_refl|].
  eapply peaks_le_trans; [apply process_market_peaks|apply IH].
Qed.

Lemma run_trading_cycle_peaks now fs cache markets :
  let c := run_trading_cycle now fs cache markets in
  peaks_le (load_positions fs) (book c) ∧
  peaks_le (load_positions fs) (load_positions (files c)).
Proof.
  destruct markets as [|m ms]; cbn zeta.
  - rewrite run_trading_cycle_empty. split; apply peaks_le_refl.
  - rewrite run_trading_cycle_nonempty by done. cbn -[sorted_by_liquidity].
    pose proof (foldl_process_market_peaks now
      (take 5 (sorted_by_liquidity (m :: ms)))
      (mkCycle fs cache (load_positions fs))) as H.
    split; exact H.
Qed.

(** C9: no step of a cycle lowers the high-water mark or the max drawdown
    of the working portfolio, and over any run of cycles the saved
    portfolio's high-water mark and max drawdown are never lower than the
    ones the run started from. *)
Theorem peaks_never_decrease :
  (∀ now c market,
     peaks_le (book c) (book (mark_step c market)) ∧
     peaks_le (book c) (book (exit_step now c market)) ∧
     peaks_le (book c) (book (entry_step now c market))) ∧
  (∀ now fs cache markets,
     peaks_le (load_positions fs) (book (run_trading_cycle now fs cache markets))) ∧
  (∀ triggers fs cache,
     peaks_le (load_positions fs)
              (load_positions (run_cycles triggers fs cache).1)).
Proof.
  split; [|split].
  - intros now c market.
    auto using mark_step_peaks, exit_step_peaks, entry_step_peaks.
  - intros. apply run_trading_cycle_peaks.
  - induction triggers as [|[now markets] rest IH]; intros fs cache; cbn.
    + apply peaks_le_refl.
    + eapply peaks_le_trans; [|apply IH]. apply run_trading_cycle_peaks.
Qed.

(** ** One position per instrument *)

Lemma has_position_false pf market_id' :
  has_position pf market_id' = false ↔ market_id' ∉ open_instruments pf.
Proof.
  unfold has_position, open_instruments.
  rewrite <- not_true_iff_false, existsb_exists, list_elem_of_fmap.
  split.
  - intros Hno (p & -> & Hp). apply Hno. exists p.
    rewrite bool_decide_eq_true. split; [by apply list_elem_of_In | done].
  - intros Hno (p & Hp & Heq). apply Hno. exists p.
    apply bool_decide_eq_true in Heq. split; [done | by apply list_elem_of_In].
Qed.

Lemma update_position_pnl_instruments pf market :
  open_instruments (update_position_pnl pf market) = open_instruments pf.
Proof. apply update_position_pnl_marks. Qed.

(** A close takes one position out of the book and leaves the others in
    their order; a refused close leaves the book alone. *)
Lemma close_position_instruments fs now pf market reason :
  open_instruments (close_position fs now pf market reason).1.2
    `sublist_of` open_instruments pf.
Proof.
  unfold close_position, open_instruments.
  destruct (list_find _ _) as [[i position]|]; cbn; [|done].
  rewrite list_fmap_delete. apply sublist_delete.
Qed.

(** A trade adds at most one position, for the market it was called with. *)
Lemma execute_trade_instruments fs now pf market signal strat :
  let '(_, pf', ok) := execute_trade fs now pf market signal strat in
  open_instruments pf' =
    if ok then open_instruments pf ++ [id market] else open_instruments pf.
Proof.
  unfold execute_trade, open_instruments. repeat case_decide; try done.
  all: destruct (fdiv _ _); [|done]; destruct (Num.ltb _ _); [done|].
  all: cbn; by rewrite fmap_app.
Qed.

Lemma entry_signal_no_position c market s :
  entry_signal c market = Some s → id market ∉ open_instruments (book c).
Proof.
  unfold entry_signal.
  destruct (has_position _ _) eqn:E; [done|]. intros _.
  by apply has_position_false.
Qed.

Lemma mark_step_unique c market :
  unique_instruments (book c) → unique_instruments (book (mark_step c market)).
Proof.
  unfold unique_instruments. cbn. by rewrite update_position_pnl_instruments.
Qed.

Lemma exit_step_unique now c market :
  unique_instruments (book c) → unique_instruments (book (exit_step now c market)).
Proof.
  unfold exit_step, unique_instruments.
  destruct (check_exit_conditions _ _) as [[] reason]; [|done].
  pose proof (close_position_instruments (files c) now (book c) market reason) as H.
  destruct (close_position _ _ _ _ _) as [[fs pf] ok]. cbn in *.
  intros Hc. by eapply sublist_NoDup.
Qed.

Lemma entry_step_unique now c market :
  unique_instruments (book c) → unique_instruments (book (entry_step now c market)).
Proof.
  unfold entry_step, unique_instruments. intros Hc.
  destruct (entry_signal c market) as [[[signal|] strat]|] eqn:E; try done.
  apply entry_signal_no_position in E.
  pose proof (execute_trade_instruments (files c) now (book c) market signal strat) as H.
  destruct (execute_trade _ _ _ _ _ _) as [[fs pf] []]; cbn; rewrite H; [|done].
  apply NoDup_app. split; [done|]. split; [|apply NoDup_singleton].
  intros x Hx ->%list_elem_of_singleton. done.
Qed.

Lemma loop_trace_last now markets :
  ∀ c, last (c :: loop_trace now c markets)
       = Some (foldl (process_market now) c markets).
Proof.
  induction markets as [|m ms IH]; intros c; [done|].
  cbn [loop_trace foldl]. rewrite <- IH. reflexivity.
Qed.

Lemma loop_trace_unique now markets :
  ∀ c, unique_instruments (book c) →
    Forall (λ c', unique_instruments (book c')) (loop_trace now c markets) ∧
    unique_instruments (book (foldl (process_market now) c markets)).
Proof.
  induction markets as [|m ms IH]; intros c Hc; cbn [loop_trace foldl].
  - by split.
  - pose proof (mark_step_unique c m Hc) as H1.
    pose proof (exit_step_unique now _ m H1) as H2.
    pose proof (entry_step_unique now _ m H2) as H3.
    destruct (IH _ H3) as [Ht Hf]. split; [|exact Hf].
    by repeat constructor.
Qed.

Lemma run_trading_cycle_unique now fs cache markets :
  unique_instruments (load_positions fs) →
  Forall (λ c, unique_instruments (book c)) (cycle_trace now fs cache markets) ∧
  unique_instruments (load_positions (files (run_trading_cycle now fs cache markets))).
Proof.
  intros Hfs. unfold cycle_trace. destruct markets as [|m ms].
  - rewrite run_trading_cycle_empty. by repeat constructor.
  - rewrite run_trading_cycle_nonempty by done.
    destruct (loop_trace_unique now (take 5 (sorted_by_liquidity (m :: ms)))
                (mkCycle fs cache (load_positions fs)) Hfs) as [Ht Hf].
    split; [|exact Hf].
    apply Forall_app. split; [by constructor|].
    constructor; [exact Hf | constructor].
Qed.

Lemma run_cycles_unique triggers :
  ∀ fs cache,
    unique_instruments (load_positions fs) →
    unique_instruments (load_positions (run_cycles triggers fs cache).1).
Proof.
  induction triggers as [|[now markets] rest IH]; intros fs cache Hfs; [done|].
  cbn. apply IH. by apply run_trading_cycle_unique.
Qed.

(** C4: if the saved portfolio holds at most one position per instrument,
    so does every portfolio the cycle passes through (after each
    mark-to-market, each exit check and each entry check), the one it
    returns and saves, and the saved one after any run of cycles; and the
    loop asks for a signal only for a market that has no open position at
    that moment. *)
Theorem one_position_per_instrument now fs cache markets :
  unique_instruments (load_positions fs) →
  Forall (λ c, unique_instruments (book c)) (cycle_trace now fs cache markets) ∧
  unique_instruments (load_positions (files (run_trading_cycle now fs cache markets))) ∧
  (∀ triggers,
     unique_instruments (load_positions (run_cycles triggers fs cache).1)) ∧
  (∀ c market s,
     entry_signal c market = Some s → has_position (book c) (id market) = false).
Proof.
  intros Hfs.
  destruct (run_trading_cycle_unique now fs cache markets Hfs) as [Htrace Hsaved].
  split; [exact Htrace|]. split; [exact Hsaved|]. split.
  - intros triggers. by apply run_cycles_unique.
  - intros c market s Hs. apply has_position_false.
    by eapply entry_signal_no_position.
Qed.

(** ** Exit checks *)

Lemma check_exit_loop_other market book :
  id market ∉ market_id <$> book →
  check_exit_loop market book = (false, no_reason).
Proof.
  induction book as [|p rest IH]; [done|]. cbn.
  rewrite not_elem_of_cons. intros [Hp Hrest].
  rewrite decide_True by done. by apply IH.
Qed.

Lemma check_exit_loop_unique market book position :
  NoDup (market_id <$> book) →
  position ∈ book →
  market_id position = id market →
  check_exit_loop market book =
    match exit_decision position with
    | Some reason => (true, reason)
    | None => (false, no_reason)
    end.
Proof.
  induction book as [|p rest IH]; intros Hnd Hin Hid; [by apply elem_of_nil in Hin|].
  cbn in Hnd. apply NoDup_cons in Hnd as [Hp Hrest]. cbn.
  apply elem_of_cons in Hin as [<-|Hin].
  - rewrite decide_False by (intros H; by apply H).
    destruct (exit_decision position); [done|].
    apply check_exit_loop_other. by rewrite <- Hid.
  - rewrite decide_True; [by apply IH|].
    intros Heq. apply Hp. rewrite Heq, <- Hid. by apply list_elem_of_fmap_2.
Qed.

(** C6: for an open position of the market (the only one, as the book holds
    one position per instrument), [check_exit_conditions] answers with a
    profit-target exit when the unrealized fraction has reached the
    position's profit target, whatever the stop-loss test says; otherwise
    with a stop-loss exit when the fraction is at or below minus the
    stop-loss fraction; otherwise with no exit. *)
Theorem check_exit_conditions_spec pf market position :
  unique_instruments pf →
  position ∈ positions pf →
  market_id position = id market →
  let pnl_pct := unrealized_pnl_pct position in
  (profit_target_pct position ≤ pnl_pct →
     check_exit_conditions pf market = (true, profit_target pnl_pct)) ∧
  (pnl_pct < profit_target_pct position → pnl_pct ≤ - stop_loss_pct position →
     check_exit_conditions pf market = (true, stop_loss pnl_pct)) ∧
  (pnl_pct < profit_target_pct position → - stop_loss_pct position < pnl_pct →
     check_exit_conditions pf market = (false, no_reason)).
Proof.
  intros Hnd Hin Hid pnl_pct. unfold check_exit_conditions.
  rewrite (check_exit_loop_unique market _ position Hnd Hin Hid).
  unfold exit_decision. fold pnl_pct.
  split; [|split].
  - intros Hpt. apply Num_leb_le in Hpt. by rewrite Hpt.
  - intros Hpt Hsl. apply Num_ltb_lt in Hpt. unfold Num.ltb in Hpt.
    apply negb_true_iff in Hpt. unfold Num.leb at 1. rewrite Hpt.
    apply Num_leb_le in Hsl. by rewrite Hsl.
  - intros Hpt Hsl. apply Num_ltb_lt in Hpt, Hsl. unfold Num.ltb in Hpt, Hsl.
    apply negb_true_iff in Hpt, Hsl. unfold Num.leb. by rewrite Hpt, Hsl.
Qed.

(** ** Markets without a YES or Up price *)

Lemma yes_price_of_quoted market yes_price :
  yes_price_of (quoted market yes_price) = yes_price.
Proof. unfold yes_price_of, quoted. cbn. by rewrite lookup_singleton_eq. Qed.

Lemma yes_price_of_fallback market :
  outcomes_dict market !! "YES" = None →
  outcomes_dict market !! "Up" = None →
  yes_price_of market = Num.dec 5 10.
Proof. unfold yes_price_of. by intros -> ->. Qed.

(** The functions of the engine read a market through its id, its question
    and [yes_price_of] only. *)
Section same_quote.
Context (market market' : Market).
Hypothesis same_id : id market' = id market.
Hypothesis same_question : question market' = question market.
Hypothesis same_price : yes_price_of market' = yes_price_of market.

Lemma generate_signal_same_quote history :
  generate_signal market' history = generate_signal market history.
Proof. unfold generate_signal, generate_signal_body. by rewrite same_price. Qed.

Lemma update_position_pnl_loop_same_id yes_price rest :
  ∀ seen pf,
    update_position_pnl_loop market' yes_price seen rest pf =
    update_position_pnl_loop market yes_price seen rest pf.
Proof.
  induction rest as [|p rest IH]; intros seen pf; [done|]. cbn.
  rewrite same_id. case_decide; [|apply IH].
  destruct (fdiv _ _); [apply IH | done].
Qed.

Lemma update_position_pnl_same_quote pf :
  update_position_pnl pf market' = update_position_pnl pf market.
Proof.
  unfold update_position_pnl. rewrite same_price.
  apply update_position_pnl_loop_same_id.
Qed.

Lemma execute_trade_same_quote fs now pf signal strat :
  execute_trade fs now pf market' signal strat =
  execute_trade fs now pf market signal strat.
Proof.
  unfold execute_trade. by rewrite same_price, same_id, same_question.
Qed.

Lemma close_position_same_quote fs now pf reason :
  close_position fs now pf market' reason =
  close_position fs now pf market reason.
Proof.
  unfold close_position. by rewrite same_price, same_id, same_question.
Qed.

Lemma update_history_same_quote cache :
  update_history cache market' = update_history cache market.
Proof. unfold update_history. by rewrite same_price, same_id. Qed.
End same_quote.

(** ** Entry vetoes *)

Lemma execute_trade_circuit_breaker fs now pf market signal strat :
  (CIRCUIT_BREAKER ≤ consecutive_losses pf)%Z →
  execute_trade fs now pf market signal strat = (fs, pf, false).
Proof. intros H. unfold execute_trade. by repeat case_decide. Qed.

Lemma execute_trade_insufficient_cash fs now pf market signal strat :
  cash pf < cash pf * POSITION_SIZE →
  execute_trade fs now pf market signal strat = (fs, pf, false).
Proof.
  intros H%Num_ltb_lt. unfold execute_trade. repeat case_decide; try done.
  all: destruct (fdiv _ _); [|done]; by rewrite H.
Qed.

Lemma position_size_fits (x : Qc) : 0 ≤ x → Num.ltb x (x * POSITION_SIZE) = false.
Proof.
  intros Hx. apply Num_ltb_false_le.
  rewrite <- (Qcmult_1_l x) at 2. rewrite (Qcmult_comm x).
  apply Qcmult_le_compat_r; [|done]. by vm_compute.
Qed.

(** A BUY that no check refuses: the breaker is not tripped, the price can
    be divided by, and there is cash to size the position from. *)
Lemma execute_trade_accepts fs now pf market strat :
  (consecutive_losses pf < CIRCUIT_BREAKER)%Z →
  yes_price_of market ≠ 0 →
  0 ≤ cash pf →
  ∃ fs' position,
    execute_trade fs now pf market BUY strat =
      (fs',
       mkPortfolio (positions pf ++ [position]) (cash pf - cash pf * POSITION_SIZE)
                   (equity pf) (high_water pf) (max_drawdown pf)
                   (consecutive_losses pf),
       true) ∧
    market_id position = id market ∧
    entry_price position = yes_price_of market ∧
    strategy position = strat.
Proof.
  intros Hcb Hprice Hcash. unfold execute_trade.
  rewrite decide_False by (intros H; by apply H).
  rewrite decide_False by lia.
  unfold fdiv. destruct (Num.eqb _ 0) eqn:E; [by apply Num_eqb_eq in E|].
  rewrite position_size_fits by done. eauto 10.
Qed.

(** C8, as stated, fails: a position is opened on a market whose liquidity
    is under the minimum. *)
Lemma thin_market_is_traded :
  liquidity Thin.market < MIN_LIQUIDITY ∧
  execute_trade Thin.disk "t1" default_positions Thin.market BUY mean_reversion
    ≠ (Thin.disk, default_positions, false).
Proof.
  split; [by vm_compute|].
  intros H. apply (f_equal snd) in H. vm_compute in H. discriminate H.
Qed.

(** C8, amended: [execute_trade] refuses an entry, handing back the files
    and the portfolio untouched and returning [False], when the circuit
    breaker is tripped or when the notional exceeds the cash; the market's
    liquidity plays no part in its answer. *)
Theorem execute_trade_vetoes fs now pf market signal strat :
  ((CIRCUIT_BREAKER ≤ consecutive_losses pf)%Z ∨ cash pf < cash pf * POSITION_SIZE →
     execute_trade fs now pf market signal strat = (fs, pf, false)) ∧
  (∀ liquidity',
     execute_trade fs now pf (with_liquidity market liquidity') signal strat =
     execute_trade fs now pf market signal strat).
Proof.
  split.
  - intros [H|H];
      [by apply execute_trade_circuit_breaker
      |by apply execute_trade_insufficient_cash].
  - intros liquidity'. by apply execute_trade_same_quote.
Qed.

(** ** The circuit breaker *)

Lemma close_position_losing fs now pf market reason pnl :
  closed_pnl pf market = Some pnl → pnl ≤ 0 →
  let closed := close_position fs now pf market reason in
  closed.2 = true ∧
  consecutive_losses closed.1.2 = (consecutive_losses pf + 1)%Z.
Proof.
  unfold closed_pnl, close_position.
  destruct (list_find _ _) as [[i position]|]; [|done].
  intros [= <-] Hle. cbn in *. apply Num_ltb_false_le in Hle. by rewrite Hle.
Qed.

Lemma close_position_winning fs now pf market reason pnl :
  closed_pnl pf market = Some pnl → 0 < pnl →
  let closed := close_position fs now pf market reason in
  closed.2 = true ∧ consecutive_losses closed.1.2 = 0%Z.
Proof.
  unfold closed_pnl, close_position.
  destruct (list_find _ _) as [[i position]|]; [|done].
  intros [= <-] Hlt. cbn in *. apply Num_ltb_lt in Hlt. by rewrite Hlt.
Qed.

Lemma close_position_succeeds fs now pf market reason :
  (close_position fs now pf market reason).2 = has_position pf (id market).
Proof.
  unfold close_position, has_position.
  destruct (list_find _ _) as [[i position]|] eqn:E; cbn.
  - apply list_find_Some in E as (Hi & Hid & _). symmetry.
    apply existsb_exists. exists position.
    split; [eapply list_elem_of_In, list_elem_of_lookup_2, Hi|].
    by apply bool_decide_eq_true.
  - apply list_find_None in E. symmetry. apply not_true_iff_false.
    rewrite existsb_exists. intros (p & Hp%list_elem_of_In & Heq%bool_decide_eq_true).
    rewrite Forall_forall in E. by apply (E p).
Qed.

Lemma update_position_pnl_loop_with_losses market yes_price n rest :
  ∀ seen pf,
    update_position_pnl_loop market yes_price seen rest (with_losses pf n) =
    with_losses (update_position_pnl_loop market yes_price seen rest pf) n.
Proof.
  induction rest as [|p rest IH]; intros seen pf; [done|]. cbn.
  case_decide; [|apply IH].
  destruct (fdiv _ _); [|done].
  rewrite <- IH. reflexivity.
Qed.

(** Marking to market and checking exits do not read the loss counter, and
    a close reads it only to write the next count. *)
Lemma exits_ignore_losses pf n market :
  update_position_pnl (with_losses pf n) market =
    with_losses (update_position_pnl pf market) n ∧
  check_exit_conditions (with_losses pf n) market = check_exit_conditions pf market ∧
  ∀ fs now reason,
    let tripped := close_position fs now (with_losses pf n) market reason in
    let plain := close_position fs now pf market reason in
    tripped.1.1 = plain.1.1 ∧ tripped.2 = plain.2 ∧
    tripped.2 = has_position pf (id market) ∧
    positions tripped.1.2 = positions plain.1.2 ∧
    cash tripped.1.2 = cash plain.1.2.
Proof.
  split; [apply update_position_pnl_loop_with_losses|]. split; [done|].
  intros fs now reason.
  pose proof (close_position_succeeds fs now pf market reason) as Hok.
  unfold close_position in *. cbn.
  by destruct (list_find _ _) as [[i position]|].
Qed.

Lemma with_losses_reset pf :
  with_losses (with_losses pf 0) (consecutive_losses pf) = pf.
Proof. by destruct pf. Qed.

(** ** The regime detector *)

Lemma variance_window (window : list Qc) :
  (2 ≤ length window)%nat → variance window = Ok (window_variance window).
Proof. intros Hlen. unfold variance. by rewrite decide_False by lia. Qed.

Lemma last_n_length {A} (k : nat) (l : list A) :
  (k ≤ length l)%nat → length (last_n k l) = k.
Proof. intros H. unfold last_n. rewrite length_drop. lia. Qed.

Lemma neg_index_last (window : list Qc) :
  window ≠ [] → neg_index window 1 = Ok (default 0 (last window)).
Proof.
  intros Hne. unfold neg_index.
  destruct window as [|x l _] using rev_ind; [done|].
  rewrite length_app, last_snoc. cbn.
  rewrite decide_True by lia.
  replace (length l + 1 - 1)%nat with (length l) by lia.
  by rewrite list_lookup_middle.
Qed.

Lemma at_index_first (window : list Qc) :
  window ≠ [] → at_index window 0 = Ok (default 0 (window !! 0%nat)).
Proof. by destruct window. Qed.

(** Short histories have no regime. *)
Lemma detect_market_regime_short price_history :
  (length price_history < 10)%nat → detect_market_regime price_history = Ok unknown.
Proof. intros H. unfold detect_market_regime. by rewrite decide_True. Qed.

(** With ten points or more the detector either raises, exactly when the
    window opens at price 0, or returns the regime of the precedence list. *)
Lemma detect_market_regime_window price_history :
  (10 ≤ length price_history)%nat →
  detect_market_regime price_history =
    if Num.eqb (default 0 (last_n 10 price_history !! 0%nat)) 0
    then Raise ZeroDivisionError
    else Ok (regime_by_precedence price_history).
Proof.
  intros Hlen. unfold detect_market_regime, regime_by_precedence.
  rewrite !decide_False by lia.
  pose proof (last_n_length 10 price_history Hlen) as Hw.
  set (window := last_n 10 price_history) in *.
  assert (window ≠ []) as Hne by (intros E; by rewrite E in Hw).
  rewrite neg_index_last, at_index_first by done. cbn.
  unfold fdiv at 1.
  destruct (Num.eqb (default 0 (window !! 0%nat)) 0); [done|]. cbn.
  unfold stdev_gt. rewrite variance_window by lia. cbn.
  unfold window_return.
  by repeat destruct (Num.ltb _ _).
Qed.

Lemma generate_signal_short market price_history :
  (length price_history < 10)%nat →
  generate_signal market price_history = (Some HOLD, no_strategy).
Proof.
  intros Hlen.
  unfold generate_signal, generate_signal_body, should_enter_mean_reversion,
    should_enter_reversal.
  rewrite detect_market_regime_short, decide_True by done.
  destruct (Num.ltb _ _); by vm_compute.
Qed.

(** With under ten prices on record the entry check of the loop opens
    nothing. *)
Lemma entry_step_short now c market :
  (length (default [] (price_history_cache c !! id market)) < 10)%nat →
  entry_step now c market = c.
Proof.
  intros Hlen. unfold entry_step, entry_signal.
  destruct (negb _); [|done].
  rewrite generate_signal_short by done. unfold execute_trade.
  rewrite decide_True by done. by destruct c.
Qed.

(** C5 at a window that opens at price 0: the sample deviation is above the
    0.15 threshold, so the precedence list says volatile, but the detector
    divides by the first price before it looks at the volatility and raises;
    [generate_signal] turns the exception into no signal at all. *)
Theorem detect_market_regime_zero_open :
  (10 ≤ length ZeroOpen.history)%nat ∧
  stdev_gt ZeroOpen.history (Num.dec 15 100) = Ok true ∧
  regime_by_precedence ZeroOpen.history = volatile ∧
  detect_market_regime ZeroOpen.history = Raise ZeroDivisionError ∧
  generate_signal ZeroOpen.market ZeroOpen.history = (None, no_strategy).
Proof. repeat split; by vm_compute. Qed.

(** ** The mean-reversion example *)



(** ** The theorems at work on the sample inputs *)

(** One cycle over the sample files with a single market in the feed. *)
Lemma equity_recomputed_and_persisted_witness :
  let c := run_trading_cycle "t1" Sample.disk ∅ [Sample.quote "btc" 46] in
  POSITION_FILE (files c) = Some (book c) ∧
  equity_consistent (book c) ∧
  equity_consistent (load_positions (files c)).
Proof.
  destruct (equity_recomputed_and_persisted "t1" Sample.disk ∅
              [Sample.quote "btc" 46]) as (Hsaved & Hkept & _).
  intros c. destruct Hsaved as [Hfile Hequity]; [discriminate|].
  split; [exact Hfile|]. split; [exact Hequity|].
  apply Hkept. apply Qc_is_canon. reflexivity.
Defined.

(** A cycle over two markets, one of them already held. *)
Lemma one_position_per_instrument_witness :
  Forall (λ c, unique_instruments (book c))
    (cycle_trace "t1" Sample.disk ∅ [Sample.quote "btc" 46; Sample.quote "eth" 39]) ∧
  unique_instruments
    (load_positions
       (files (run_trading_cycle "t1" Sample.disk ∅
                 [Sample.quote "btc" 46; Sample.quote "eth" 39]))).
Proof.
  destruct (one_position_per_instrument "t1" Sample.disk ∅
              [Sample.quote "btc" 46; Sample.quote "eth" 39])
    as (Htrace & Hsaved & _ & _); [|by split].
  unfold unique_instruments. cbn. apply NoDup_singleton.
Defined.

(** A position at +67%, one at -12% and one at -4%. *)
Lemma check_exit_conditions_spec_witness :
  check_exit_conditions Streak.portfolio (Sample.quote "xrp" 65)
    = (true, profit_target (unrealized_pnl_pct (Sample.held "xrp" 39 65))) ∧
  check_exit_conditions Streak.portfolio (Sample.quote "ada" 44)
    = (true, stop_loss (unrealized_pnl_pct (Sample.held "ada" 50 44))) ∧
  check_exit_conditions Sample.portfolio (Sample.quote "btc" 48)
    = (false, no_reason).
Proof.
  assert (unique_instruments Streak.portfolio) as Hstreak.
  { apply (bool_decide_unpack (NoDup (open_instruments Streak.portfolio))).
    by vm_compute. }
  assert (unique_instruments Sample.portfolio) as Hsample.
  { unfold unique_instruments. cbn. apply NoDup_singleton. }
  split; [|split].
  - apply (check_exit_conditions_spec Streak.portfolio (Sample.quote "xrp" 65)
             (Sample.held "xrp" 39 65) Hstreak); [|reflexivity|by vm_compute].
    cbn. do 3 right. left.
  - apply (check_exit_conditions_spec Streak.portfolio (Sample.quote "ada" 44)
             (Sample.held "ada" 50 44) Hstreak);
      [left|reflexivity|by vm_compute|by vm_compute].
  - apply (check_exit_conditions_spec Sample.portfolio (Sample.quote "btc" 48)
             Sample.btc_position Hsample);
      [left|reflexivity|by vm_compute|by vm_compute].
Defined.

(** A BUY with the loss counter at 3. *)
Lemma execute_trade_vetoes_witness :
  execute_trade Thin.disk "t1" (with_losses default_positions 3) Thin.market BUY
                mean_reversion
    = (Thin.disk, with_losses default_positions 3, false).
Proof.
  apply (proj1 (execute_trade_vetoes Thin.disk "t1"
                  (with_losses default_positions 3) Thin.market BUY
                  mean_reversion)).
  left. by vm_compute.
Defined.

(** * Further properties *)

#[local] Set Warnings "-clear-no-such-hyp".

(** ** Momentum *)

Lemma neg_index_nth_last (prices : list Qc) (k : nat) :
  (1 ≤ k ≤ length prices)%nat → neg_index prices k = Ok (nth_last prices k).
Proof.
  intros Hk. unfold neg_index, nth_last. rewrite decide_True by lia.
  destruct (lookup_lt_is_Some_2 prices (length prices - k)) as [x Hx]; [lia|].
  by rewrite Hx.
Qed.

Lemma calculate_momentum_ok prices period :
  (1 ≤ period)%nat → calculate_momentum prices period = Ok (momentum prices period).
Proof.
  intros Hp. unfold calculate_momentum, momentum.
  destruct (decide (length prices < period + 1)%nat) as [Hshort|Hlong].
  - by rewrite decide_True by lia.
  - rewrite decide_False by lia.
    rewrite (neg_index_nth_last prices period) by lia. cbn.
    destruct (Num.eqb (nth_last prices period) 0) eqn:E; cbn.
    + apply Num_eqb_eq in E. by rewrite decide_True by done.
    + rewrite (neg_index_nth_last prices 1) by lia. cbn. unfold fdiv. rewrite E.
      rewrite decide_False; [done|].
      intros E'. apply Num_eqb_eq in E'. congruence.
Qed.

Lemma nth_last_middle (front middle : list Qc) (x : Qc) :
  nth_last (front ++ x :: middle) (S (length middle)) = x.
Proof.
  unfold nth_last. rewrite length_app. cbn.
  replace (length front + S (length middle) - S (length middle))%nat
    with (length front) by lia.
  by rewrite list_lookup_middle.
Qed.

(** X1: [calculate_momentum] never raises for a period of at least 1.  It
    answers 0 when the history has no more than [period] prices; otherwise,
    for a period of at least 2, it compares the last price with the one
    [period - 1] steps before it, and answers 0 when that base price is 0. *)
Theorem calculate_momentum_never_raises prices period :
  (1 ≤ period)%nat →
  ∃ m, calculate_momentum prices period = Ok m ∧
    ((length prices ≤ period)%nat → m = 0) ∧
    (∀ front base middle last,
       prices = front ++ base :: middle ++ [last] →
       front ≠ [] →
       S (S (length middle)) = period →
       m = if decide (base = 0) then 0 else (last - base) / base).
Proof.
  intros Hp. exists (momentum prices period).
  split; [by apply calculate_momentum_ok|]. split.
  - intros Hshort. unfold momentum. by rewrite decide_True.
  - intros front base middle last -> Hfront <-. unfold momentum.
    rewrite decide_False.
    2:{ rewrite !length_app. cbn. rewrite length_app. cbn.
        destruct front; [done|]. cbn. lia. }
    replace (S (S (length middle))) with (S (length (middle ++ [last])))
      by (rewrite length_app; cbn; lia).
    rewrite nth_last_middle.
    replace (front ++ base :: middle ++ [last])
      with ((front ++ base :: middle) ++ last :: []) by by rewrite <- app_assoc.
    by rewrite (nth_last_middle _ [] last).
Qed.

(** ** The two entry rules *)

Lemma nth_last_last_n (prices : list Qc) (n k : nat) :
  (1 ≤ k ≤ n)%nat → (n ≤ length prices)%nat →
  nth_last (last_n n prices) k = nth_last prices k.
Proof.
  intros Hk Hn. unfold nth_last. rewrite last_n_length by done.
  unfold last_n. rewrite lookup_drop. f_equal. f_equal. lia.
Qed.

Lemma nth_last_1 (prices : list Qc) : nth_last prices 1 = default 0 (last prices).
Proof.
  unfold nth_last. rewrite last_lookup. do 2 f_equal. lia.
Qed.

Lemma window_first (prices : list Qc) :
  (10 ≤ length prices)%nat →
  default 0 (last_n 10 prices !! 0%nat) = nth_last prices 10.
Proof.
  intros Hlen. unfold nth_last, last_n. rewrite lookup_drop. do 2 f_equal. lia.
Qed.

Lemma momentum_10_window (prices : list Qc) :
  (11 ≤ length prices)%nat →
  nth_last prices 10 ≠ 0 →
  momentum prices 10 = window_return (last_n 10 prices).
Proof.
  intros Hlen Hfirst. unfold momentum, window_return.
  rewrite !decide_False by (done || lia).
  rewrite window_first by lia.
  by rewrite <- nth_last_1, nth_last_last_n by lia.
Qed.

Lemma momentum_short (prices : list Qc) (period : nat) :
  (length prices ≤ period)%nat → momentum prices period = 0.
Proof. intros H. unfold momentum. by rewrite decide_True. Qed.

Lemma should_enter_reversal_fires price_history :
  should_enter_reversal price_history =
    match detect_market_regime price_history with
    | Ok regime =>
      if reversal_fires price_history regime then Ok (true, reversal)
      else Ok (false, no_strategy)
    | Raise e => Raise e
    end.
Proof.
  unfold should_enter_reversal, reversal_fires.
  destruct (decide (length price_history < 10)%nat) as [Hshort|Hlong].
  - rewrite detect_market_regime_short by done.
    by rewrite bool_decide_eq_false_2 by lia.
  - rewrite !calculate_momentum_ok by lia. cbn.
    destruct (detect_market_regime price_history) as [regime|e]; [|done]. cbn.
    destruct (decide (11 ≤ length price_history)%nat) as [H11|H10].
    + by rewrite (bool_decide_eq_true_2 _ H11).
    + rewrite (bool_decide_eq_false_2 _ H10). cbn.
      rewrite (momentum_short price_history 10) by lia.
      replace (Num.ltb 0 REVERSAL_CONFIG.momentum_10_threshold) with false
        by by vm_compute.
      by rewrite andb_false_r.
Qed.

Lemma detect_market_regime_ok_first price_history regime :
  (10 ≤ length price_history)%nat →
  detect_market_regime price_history = Ok regime →
  nth_last price_history 10 ≠ 0 ∧ regime = regime_by_precedence price_history.
Proof.
  intros Hlen. rewrite detect_market_regime_window, window_first by done.
  destruct (Num.eqb _ 0) eqn:E; [done|]. intros [= <-]. split; [|done].
  intros E'. apply Num_eqb_eq in E'. congruence.
Qed.

Lemma regime_bear_return price_history :
  (10 ≤ length price_history)%nat →
  regime_by_precedence price_history = bear →
  window_return (last_n 10 price_history) < Num.dec (-5) 100.
Proof.
  intros Hlen. unfold regime_by_precedence. rewrite decide_False by lia. cbn zeta.
  destruct (Num.ltb _ (window_variance _)); [done|].
  destruct (Num.ltb (Num.dec 5 100) _); [done|].
  destruct (Num.ltb _ (Num.dec (-5) 100)) eqn:E; [|done].
  intros _. by apply Num_ltb_lt.
Qed.

(** X2: the reversal rule fires exactly when the history has at least
    eleven prices, the last price is more than 1% above the one before it,
    and the regime is bear, or volatile with a ten-point window return
    under -2%.  Its 10-point momentum is the window return of the regime
    detector, so in a bear regime (return under -5%) that test adds
    nothing; with exactly ten prices the rule cannot fire. *)
Theorem reversal_entry_iff price_history :
  should_enter_reversal price_history = Ok (true, reversal) ↔
  (11 ≤ length price_history)%nat ∧
  REVERSAL_CONFIG.momentum_2_threshold < momentum price_history 2 ∧
  (detect_market_regime price_history = Ok bear ∨
   (detect_market_regime price_history = Ok volatile ∧
    window_return (last_n 10 price_history) < REVERSAL_CONFIG.momentum_10_threshold)).
Proof.
  rewrite should_enter_reversal_fires. unfold reversal_fires. split.
  - destruct (detect_market_regime price_history) as [regime|e] eqn:Hreg; [|done].
    destruct (bool_decide (11 ≤ _)%nat) eqn:H11; [|done].
    apply bool_decide_eq_true in H11.
    destruct (Num.ltb _ (momentum price_history 2)) eqn:H2; [|done].
    destruct (Num.ltb (momentum price_history 10) _) eqn:H10; [|done].
    destruct (bool_decide (regime ∈ _)) eqn:Hin; [|done]. intros _.
    apply Num_ltb_lt in H2, H10. apply bool_decide_eq_true in Hin.
    destruct (detect_market_regime_ok_first price_history regime ltac:(lia) Hreg)
      as [Hfirst _].
    rewrite momentum_10_window in H10 by done.
    split; [done|]. split; [done|].
    apply elem_of_cons in Hin as [->|Hin]; [by left|].
    apply list_elem_of_singleton in Hin as ->. by right.
  - intros (H11 & H2 & Hreg).
    assert (∃ regime, detect_market_regime price_history = Ok regime ∧
              regime ∈ [bear; volatile] ∧
              window_return (last_n 10 price_history)
                < REVERSAL_CONFIG.momentum_10_threshold)
      as (regime & Hdet & Hin & Hret).
    { destruct Hreg as [Hbear|[Hvol Hret]].
      - exists bear. split; [done|]. split; [set_solver|].
        destruct (detect_market_regime_ok_first price_history bear ltac:(lia) Hbear)
          as [_ Heq].
        eapply Qclt_trans; [apply regime_bear_return; [lia|done]|by vm_compute].
      - exists volatile. split; [done|]. split; [set_solver|done]. }
    rewrite Hdet.
    destruct (detect_market_regime_ok_first price_history regime ltac:(lia) Hdet)
      as [Hfirst _].
    rewrite (bool_decide_eq_true_2 _ H11), (bool_decide_eq_true_2 _ Hin).
    rewrite momentum_10_window by done.
    apply Num_ltb_lt in H2, Hret. by rewrite H2, Hret.
Qed.

(** ** The signal *)

Lemma generate_signal_table market price_history :
  generate_signal market price_history =
    match detect_market_regime price_history with
    | Raise _ => (None, no_strategy)
    | Ok regime =>
      if Num.ltb (yes_price_of market) MEAN_REVERSION_CONFIG.entry_threshold
         && bool_decide (regime ∈ [bull; sideways])
      then (Some BUY, mean_reversion)
      else if reversal_fires price_history regime then (Some BUY, reversal)
      else (Some HOLD, no_strategy)
    end.
Proof.
  unfold generate_signal, generate_signal_body, should_enter_mean_reversion.
  pose proof (should_enter_reversal_fires price_history) as Hrev.
  destruct (Num.ltb (yes_price_of market) _); cbn.
  - destruct (detect_market_regime price_history) as [regime|e]; [|done]. cbn.
    destruct (bool_decide (regime ∈ [bull; sideways])); [done|]. cbn.
    rewrite Hrev. by destruct (reversal_fires price_history regime).
  - rewrite Hrev.
    destruct (detect_market_regime price_history) as [regime|e]; [|done].
    by destruct (reversal_fires price_history regime).
Qed.

Lemma in_bull_sideways regime :
  bool_decide (regime ∈ [bull; sideways]) =
    match regime with bull | sideways => true | _ => false end.
Proof. destruct regime; by vm_compute. Qed.

Lemma in_bear_volatile regime :
  bool_decide (regime ∈ [bear; volatile]) =
    match regime with bear | volatile => true | _ => false end.
Proof. destruct regime; by vm_compute. Qed.

(** X3: [generate_signal] answers [None] exactly when the regime detector
    raises (and it consults the detector whatever the price); it answers
    BUY with the mean-reversion tag exactly when the price is under 0.40
    and the regime is bull or sideways, BUY with the reversal tag exactly
    when the reversal rule fires, and HOLD with the empty tag in every
    other case. *)
Theorem generate_signal_cases market price_history :
  let answer := generate_signal market price_history in
  (answer.1 = None ↔ ∃ e, detect_market_regime price_history = Raise e) ∧
  (answer = (Some BUY, mean_reversion) ↔
     yes_price_of market < MEAN_REVERSION_CONFIG.entry_threshold ∧
     (detect_market_regime price_history = Ok bull ∨
      detect_market_regime price_history = Ok sideways)) ∧
  (answer = (Some BUY, reversal) ↔
     should_enter_reversal price_history = Ok (true, reversal)) ∧
  (answer = (None, no_strategy) ∨ answer = (Some BUY, mean_reversion) ∨
   answer = (Some BUY, reversal) ∨ answer = (Some HOLD, no_strategy)).
Proof.
  cbn zeta. rewrite generate_signal_table, should_enter_reversal_fires.
  destruct (detect_market_regime price_history) as [regime|e];
    [|naive_solver].
  unfold reversal_fires.
  rewrite in_bull_sideways, in_bear_volatile.
  destruct (Num.ltb (yes_price_of market) _) eqn:Hprice.
  - apply Num_ltb_lt in Hprice.
    destruct regime; rewrite ?andb_false_r; cbn;
      try destruct (_ && _); naive_solver.
  - assert (¬ yes_price_of market < MEAN_REVERSION_CONFIG.entry_threshold) as Hge.
    { intros H%Num_ltb_lt. congruence. }
    destruct regime; rewrite ?andb_false_r; cbn;
      try destruct (_ && _); naive_solver.
Qed.

Lemma last_n_idem {A} (n : nat) (l : list A) :
  (n ≤ length l)%nat → last_n n (last_n n l) = last_n n l.
Proof.
  intros H. unfold last_n at 1. rewrite last_n_length by done.
  by rewrite Nat.sub_diag.
Qed.

Lemma detect_market_regime_last_n price_history :
  (10 ≤ length price_history)%nat →
  detect_market_regime price_history =
  detect_market_regime (last_n 10 price_history).
Proof.
  intros Hlen.
  rewrite (detect_market_regime_window price_history) by done.
  rewrite (detect_market_regime_window (last_n 10 price_history))
    by by rewrite last_n_length.
  unfold regime_by_precedence.
  rewrite last_n_idem, last_n_length by done.
  by rewrite !decide_False by lia.
Qed.

Lemma momentum_last_n (prices : list Qc) (period : nat) :
  (1 ≤ period ≤ 10)%nat → (11 ≤ length prices)%nat →
  momentum prices period =
    if decide (nth_last (last_n 10 prices) period = 0) then 0
    else (nth_last (last_n 10 prices) 1 - nth_last (last_n 10 prices) period)
         / nth_last (last_n 10 prices) period.
Proof.
  intros Hp Hlen. unfold momentum. rewrite decide_False by lia.
  by rewrite !nth_last_last_n by lia.
Qed.

(** X4: with ten prices or more the regime is that of the last ten alone,
    and with eleven or more the signal is a function of the market's price
    and the last ten prices: older history has no say. *)
Theorem signal_reads_last_ten :
  (∀ price_history,
     (10 ≤ length price_history)%nat →
     detect_market_regime price_history =
     detect_market_regime (last_n 10 price_history)) ∧
  (∀ market h h',
     (11 ≤ length h)%nat → (11 ≤ length h')%nat →
     last_n 10 h = last_n 10 h' →
     generate_signal market h = generate_signal market h').
Proof.
  split; [apply detect_market_regime_last_n|].
  intros market h h' Hh Hh' Hsame.
  rewrite !generate_signal_table.
  rewrite (detect_market_regime_last_n h), (detect_market_regime_last_n h') by lia.
  rewrite Hsame. unfold reversal_fires.
  rewrite !(bool_decide_eq_true_2 (11 ≤ _)%nat) by done.
  by rewrite !(momentum_last_n h), !(momentum_last_n h'), Hsame by lia.
Qed.

(** ** A flat history *)

Lemma fsum_cons (x : Qc) (l : list Qc) : fsum (x :: l) = x + fsum l.
Proof.
  unfold fsum. cbn. rewrite Qcplus_0_l.
  revert x. induction l as [|y l IH]; intros x; cbn; [by rewrite Qcplus_0_r|].
  rewrite (IH (x + y)), Qcplus_0_l, (IH y). ring.
Qed.

Lemma fsum_replicate (n : nat) (x : Qc) : fsum (replicate n x) = of_nat n * x.
Proof.
  induction n as [|n IH]; cbn [replicate].
  - replace (of_nat 0) with (Q2Qc 0) by (apply Qc_is_canon; reflexivity).
    by rewrite Qcmult_0_l.
  - rewrite fsum_cons, IH. unfold of_nat.
    rewrite Nat2Z.inj_succ. unfold Z.succ.
    replace (Q2Qc (inject_Z (Z.of_nat n + 1)))
      with (Q2Qc (inject_Z (Z.of_nat n)) + 1); [ring|].
    apply Qc_is_canon. cbn. rewrite !Qred_correct, inject_Z_plus. reflexivity.
Qed.

Lemma of_nat_nonzero (n : nat) : n ≠ 0%nat → of_nat n ≠ 0.
Proof.
  intros Hn H. apply Q2Qc_eq_iff in H. unfold Qeq in H. cbn in H. lia.
Qed.

Lemma window_variance_replicate (n : nat) (x : Qc) :
  n ≠ 0%nat → window_variance (replicate n x) = 0.
Proof.
  intros Hn. unfold window_variance. rewrite length_replicate, fsum_replicate.
  replace (of_nat n * x / of_nat n) with x
    by (field; by apply of_nat_nonzero).
  rewrite fmap_replicate, fsum_replicate.
  replace ((x - x) * (x - x)) with (Q2Qc 0) by ring.
  rewrite Qcmult_0_r. unfold Qcdiv. by rewrite Qcmult_0_l.
Qed.

(** X5: a history of ten or more equal non-zero prices is sideways, and on
    it the signal is a mean-reversion BUY when the market's price is under
    0.40 and HOLD otherwise: a price that does not move is bought as soon
    as it is cheap. *)
Theorem flat_history_is_sideways (p : Qc) (n : nat) market :
  p ≠ 0 → (10 ≤ n)%nat →
  detect_market_regime (replicate n p) = Ok sideways ∧
  generate_signal market (replicate n p) =
    if Num.ltb (yes_price_of market) MEAN_REVERSION_CONFIG.entry_threshold
    then (Some BUY, mean_reversion)
    else (Some HOLD, no_strategy).
Proof.
  intros Hp Hn.
  assert (last_n 10 (replicate n p) = replicate 10 p) as Hwin.
  { unfold last_n. rewrite length_replicate, drop_replicate. f_equal. lia. }
  assert (detect_market_regime (replicate n p) = Ok sideways) as Hreg.
  { rewrite detect_market_regime_window by by rewrite length_replicate.
    rewrite Hwin. change (default 0 (replicate 10 p !! 0%nat)) with p.
    destruct (Num.eqb p 0) eqn:E; [by apply Num_eqb_eq in E|].
    unfold regime_by_precedence.
    rewrite decide_False by (rewrite length_replicate; lia).
    cbn zeta. rewrite Hwin, window_variance_replicate by done.
    assert (window_return (replicate 10 p) = 0) as ->.
    { unfold window_return. cbn. unfold Qcdiv, Qcminus.
      by rewrite Qcplus_opp_r, Qcmult_0_l. }
    by vm_compute. }
  split; [done|].
  rewrite generate_signal_table, Hreg. unfold reversal_fires.
  rewrite in_bear_volatile, andb_false_r.
  by destruct (Num.ltb _ _).
Qed.

(** ** The price cache *)

(** X6: recording a price gives the market a history that ends in the
    price just seen, is the old history with that price appended and cut
    to its last 20 entries (so one longer than before, capped at 20), and
    leaves every other market's history alone. *)
Theorem update_history_spec (cache : gmap string (list Qc)) market :
  let old := default [] (cache !! id market) in
  ∃ h,
    update_history cache market !! id market = Some h ∧
    h = last_n 20 (old ++ [yes_price_of market]) ∧
    length h = (S (length old) `min` 20)%nat ∧
    last h = Some (yes_price_of market) ∧
    (∀ k, k ≠ id market → update_history cache market !! k = cache !! k).
Proof.
  intros old. unfold update_history. fold old.
  set (history := old ++ [yes_price_of market]).
  assert (length history = S (length old)) as Hlen
    by (unfold history; rewrite length_app; cbn; lia).
  exists (last_n 20 history).
  assert ((if decide (20 < length history)%nat then last_n 20 history else history)
          = last_n 20 history) as ->.
  { case_decide; [done|]. unfold last_n.
    by replace (length history - 20)%nat with 0%nat by lia. }
  split; [by rewrite lookup_insert_eq|]. split; [done|]. split; [|split].
  - unfold last_n. rewrite length_drop. lia.
  - unfold last_n. rewrite last_lookup, length_drop, lookup_drop.
    replace (length history - 20 + pred (length history - (length history - 20)))%nat
      with (length old) by lia.
    unfold history. by rewrite list_lookup_middle.
  - intros k Hk. by rewrite lookup_insert_ne.
Qed.

(** ** Marking to market *)

Lemma update_position_pnl_loop_other market yes_price rest :
  id market ∉ market_id <$> rest →
  ∀ seen pf, update_position_pnl_loop market yes_price seen rest pf = pf.
Proof.
  induction rest as [|p rest IH]; intros Hno seen pf; [done|]. cbn in *.
  apply not_elem_of_cons in Hno as [Hp Hrest].
  rewrite decide_False by done. by apply IH.
Qed.

Lemma mark_book_other market book :
  id market ∉ market_id <$> book → mark_book market book = book.
Proof.
  induction book as [|p rest IH]; [done|]. cbn.
  intros [Hp Hrest]%not_elem_of_cons.
  rewrite decide_False by done. f_equal. by apply IH.
Qed.

Lemma update_position_pnl_loop_unique market rest :
  NoDup (market_id <$> rest) →
  ∀ seen pf,
    positions pf = seen ++ rest →
    positions (update_position_pnl_loop market (yes_price_of market) seen rest pf)
      = seen ++ mark_book market rest.
Proof.
  induction rest as [|p rest IH]; intros Hnd seen pf Hbook; [done|].
  cbn in Hnd. apply NoDup_cons in Hnd as [Hp Hrest].
  change (mark_book market (p :: rest))
    with ((if decide (market_id p = id market)
           then mark_position p (yes_price_of market) else p)
          :: mark_book market rest).
  cbn [update_position_pnl_loop].
  case_decide as Hid.
  - rewrite Hid in Hp. rewrite (mark_book_other market rest Hp).
    destruct (fdiv _ _); [|done].
    by rewrite update_position_pnl_loop_other.
  - rewrite IH; [by rewrite <- app_assoc|done|by rewrite <- app_assoc].
Qed.

Lemma update_position_pnl_loop_equity market yes_price rest :
  ∀ seen pf,
    positions pf = seen ++ rest →
    (equity_consistent pf ∧ equity pf ≤ high_water pf) ∨
      id market ∈ market_id <$> rest →
    let pf' := update_position_pnl_loop market yes_price seen rest pf in
    equity_consistent pf' ∧ equity pf' ≤ high_water pf'.
Proof.
  assert (∀ hw eq' : Qc, eq' ≤ (if Num.ltb hw eq' then eq' else hw)) as Hmax.
  { intros hw eq'. destruct (Num.ltb hw eq') eqn:E; [apply Qcle_refl|].
    by apply Num_ltb_false_le. }
  induction rest as [|p rest IH]; intros seen pf Hbook Hq; cbn.
  - destruct Hq as [Hq|Hin]; [done|]. by apply elem_of_nil in Hin.
  - case_decide as Hid.
    + destruct (fdiv _ _) as [drawdown|e].
      * apply IH; [by rewrite <- app_assoc|]. left. split; [done|apply Hmax].
      * split; [done|apply Hmax].
    + apply IH; [by rewrite <- app_assoc|].
      destruct Hq as [Hq|Hin]; [by left|]. right.
      cbn in Hin. apply elem_of_cons in Hin as [Heq|Hin]; [congruence|done].
Qed.

Lemma has_position_true pf market_id' :
  has_position pf market_id' = true ↔ market_id' ∈ open_instruments pf.
Proof.
  destruct (has_position pf market_id') eqn:E.
  - split; [intros _|done]. destruct (decide (market_id' ∈ open_instruments pf)); [done|].
    apply has_position_false in n. congruence.
  - split; [done|]. intros Hin. by apply has_position_false in E.
Qed.

(** X7: marking a market to market never touches cash or the loss counter.
    With no position on the market it changes nothing at all.  With one
    position per instrument it rewrites exactly that market's position to
    the current price and leaves the others as they are, and if the market
    has a position the equity it leaves is cash plus the unrealized PnL of
    the book and is not above the high-water mark. *)
Theorem update_position_pnl_spec pf market :
  let pf' := update_position_pnl pf market in
  cash pf' = cash pf ∧
  consecutive_losses pf' = consecutive_losses pf ∧
  (has_position pf (id market) = false → pf' = pf) ∧
  (unique_instruments pf → positions pf' = mark_book market (positions pf)) ∧
  (has_position pf (id market) = true →
     equity_consistent pf' ∧ equity pf' ≤ high_water pf').
Proof.
  intros pf'. destruct (update_position_pnl_marks pf market) as [_ Hcash Hloss _ _].
  split; [done|]. split; [done|]. split; [|split].
  - intros Hno%has_position_false.
    by apply update_position_pnl_loop_other.
  - intros Hnd. by apply (update_position_pnl_loop_unique market _ Hnd []).
  - intros Hin%has_position_true.
    apply (update_position_pnl_loop_equity market _ _ [] pf); [done|by right].
Qed.

(** ** Opening and closing *)

Lemma fsum_app (l k : list Qc) : fsum (l ++ k) = fsum l + fsum k.
Proof.
  induction l as [|x l IH].
  - unfold fsum at 2. cbn. by rewrite Qcplus_0_l.
  - change ((x :: l) ++ k) with (x :: (l ++ k)).
    rewrite !fsum_cons, IH. ring.
Qed.

Lemma sum_unrealized_snoc book position :
  sum_unrealized (book ++ [position])
    = sum_unrealized book + unrealized_pnl position.
Proof.
  unfold sum_unrealized. rewrite fmap_app, fsum_app.
  change (unrealized_pnl <$> [position]) with [unrealized_pnl position].
  rewrite (fsum_cons _ []). unfold fsum at 2. cbn. by rewrite Qcplus_0_r.
Qed.

(** X8: [execute_trade] opens a position exactly when the signal is BUY,
    the loss counter is under the breaker, the price is not zero and the
    notional (0.3% of cash) does not exceed cash.  When it refuses it hands
    back files and portfolio untouched.  When it accepts it appends one
    position on that market at the current price, sized notional / price,
    with no PnL yet; takes the notional out of cash; appends one BUY record
    whose position id is the index of the new position; and leaves the
    stored equity, the loss counter and the other two files alone.  The
    book's unrealized PnL total is unchanged, so an equity recomputed after
    an entry is lower by the notional. *)
Theorem execute_trade_spec fs now pf market signal strat :
  let r := execute_trade fs now pf market signal strat in
  (r.2 = true ↔
     signal = BUY ∧ (consecutive_losses pf < CIRCUIT_BREAKER)%Z ∧
     yes_price_of market ≠ 0 ∧ cash pf * POSITION_SIZE ≤ cash pf) ∧
  (r.2 = false → r.1.1 = fs ∧ r.1.2 = pf) ∧
  (r.2 = true →
     ∃ position,
       positions r.1.2 = positions pf ++ [position] ∧
       market_id position = id market ∧
       entry_price position = yes_price_of market ∧
       current_price position = yes_price_of market ∧
       amount position = cash pf * POSITION_SIZE ∧
       shares position = amount position / entry_price position ∧
       unrealized_pnl position = 0 ∧
       strategy position = strat ∧
       cash r.1.2 = cash pf - amount position ∧
       equity r.1.2 = equity pf ∧
       consecutive_losses r.1.2 = consecutive_losses pf ∧
       sum_unrealized (positions r.1.2) = sum_unrealized (positions pf) ∧
       load_trades r.1.1 =
         load_trades fs ++
           [BuyTrade now (question market) strat (entry_price position)
                     (shares position) (amount position)
                     (Z.of_nat (length (positions pf)))] ∧
       positions r.1.2 !! length (positions pf) = Some position ∧
       POSITION_FILE r.1.1 = POSITION_FILE fs ∧
       EQUITY_FILE r.1.1 = EQUITY_FILE fs).
Proof.
  cbn zeta. unfold execute_trade.
  destruct (decide (signal = BUY)) as [->|Hsig];
    [|rewrite decide_True by done; cbn; naive_solver].
  rewrite decide_False by (intros H; by apply H).
  destruct (decide (CIRCUIT_BREAKER ≤ consecutive_losses pf)%Z) as [Hcb|Hcb];
    [cbn; split; [|done]; split; [done|intros (_ & ? & _); lia]|].
  unfold fdiv.
  destruct (Num.eqb (yes_price_of market) 0) eqn:Hzero.
  { apply Num_eqb_eq in Hzero. cbn. naive_solver. }
  assert (yes_price_of market ≠ 0) as Hprice.
  { intros E. apply Num_eqb_eq in E. congruence. }
  destruct (Num.ltb (cash pf) (cash pf * POSITION_SIZE)) eqn:Hcash.
  { apply Num_ltb_lt in Hcash. cbn. split; [|done]. split; [done|].
    intros (_ & _ & _ & Hle). by apply Qcle_not_lt in Hle. }
  apply Num_ltb_false_le in Hcash. cbn -[sum_unrealized].
  split; [split; [intros _; repeat split; (done || lia)|done]|].
  split; [done|]. intros _. eexists. split; [reflexivity|].
  cbn -[sum_unrealized]. repeat split; try done.
  - by rewrite sum_unrealized_snoc, Qcplus_0_r.
  - unfold load_trades. cbn. do 3 f_equal. rewrite length_app. cbn. lia.
  - by rewrite list_lookup_middle.
Qed.

Lemma check_exit_loop_fires market book :
  (check_exit_loop market book).1 = true → id market ∈ market_id <$> book.
Proof.
  induction book as [|p rest IH]; [done|]. cbn.
  case_decide as Hid.
  - intros H. apply elem_of_cons. right. by apply IH.
  - intros _. apply elem_of_cons. left.
    destruct (decide (market_id p = id market)); [done|]. by destruct Hid.
Qed.

Lemma delete_first_unique (ids : list string) (i : nat) (x : string) :
  NoDup ids → ids !! i = Some x → x ∉ delete i ids.
Proof.
  intros Hnd Hi Hin.
  apply list_elem_of_lookup in Hin as [j Hj].
  destruct (decide (j < i)%nat).
  - rewrite list_lookup_delete_lt in Hj by done.
    pose proof (NoDup_lookup _ _ _ _ Hnd Hi Hj). lia.
  - rewrite list_lookup_delete_ge in Hj by lia.
    pose proof (NoDup_lookup _ _ _ _ Hnd Hi Hj). lia.
Qed.

(** X9: [close_position] succeeds exactly when the market has a position.
    When it fails nothing changes.  When it succeeds it takes out the first
    position of that market and keeps the others in order, credits cash
    with shares times the current price, appends one SELL record carrying
    the position's stored PnL, the given reason and the position's index,
    resets the loss counter on a positive PnL and raises it by one
    otherwise, and leaves the stored equity alone; with one position per
    instrument the market has no position afterwards. *)
Theorem close_position_spec fs now pf market reason :
  let r := close_position fs now pf market reason in
  r.2 = has_position pf (id market) ∧
  (r.2 = false → r.1.1 = fs ∧ r.1.2 = pf) ∧
  (r.2 = true →
     ∃ i position,
       positions pf !! i = Some position ∧
       market_id position = id market ∧
       (∀ j p, (j < i)%nat → positions pf !! j = Some p → market_id p ≠ id market) ∧
       positions r.1.2 = delete i (positions pf) ∧
       cash r.1.2 = cash pf + shares position * yes_price_of market ∧
       consecutive_losses r.1.2 =
         (if decide (0 < unrealized_pnl position) then 0%Z
          else (consecutive_losses pf + 1)%Z) ∧
       equity r.1.2 = equity pf ∧
       load_trades r.1.1 =
         load_trades fs ++
           [SellTrade now (question market) (yes_price_of market) (shares position)
                      (shares position * yes_price_of market)
                      (unrealized_pnl position) (unrealized_pnl_pct position)
                      reason (Z.of_nat i)] ∧
       POSITION_FILE r.1.1 = POSITION_FILE fs ∧
       EQUITY_FILE r.1.1 = EQUITY_FILE fs) ∧
  (unique_instruments pf → has_position r.1.2 (id market) = false).
Proof.
  cbn zeta. split; [apply close_position_succeeds|].
  unfold close_position.
  destruct (list_find _ _) as [[i position]|] eqn:Hfind; cbn -[has_position].
  - apply list_find_Some in Hfind as (Hi & Hid & Hfirst).
    split; [done|]. split.
    + intros _. exists i, position. repeat split; try done.
      * intros j p Hj Hp. by apply (Hfirst j p).
      * destruct (Num.ltb 0 (unrealized_pnl position)) eqn:E.
        -- apply Num_ltb_lt in E. by rewrite decide_True.
        -- rewrite decide_False; [done|]. intros H%Num_ltb_lt. congruence.
    + intros Hnd. apply has_position_false. unfold open_instruments. cbn.
      rewrite list_fmap_delete, <- Hid.
      apply delete_first_unique; [done|]. by rewrite list_lookup_fmap, Hi.
  - apply list_find_None in Hfind. split; [done|]. split; [done|].
    intros _. apply has_position_false. unfold open_instruments.
    intros (p & Hid & Hp)%list_elem_of_fmap.
    rewrite Forall_forall in Hfind. by apply (Hfind p).
Qed.

(** X10: when the exit check fires for a market and the book holds one
    position per instrument, the loop closes the position and then asks
    for an entry signal on that same market in the same pass, so a market
    can be sold and bought again within one cycle. *)
Theorem exit_then_entry_same_pass now c market :
  unique_instruments (book c) →
  (check_exit_conditions (book c) market).1 = true →
  let c' := exit_step now c market in
  has_position (book c') (id market) = false ∧
  length (positions (book c')) = pred (length (positions (book c))) ∧
  entry_signal c' market =
    Some (generate_signal market
            (default [] (price_history_cache c !! id market))).
Proof.
  intros Hnd Hexit c'.
  pose proof (close_position_succeeds (files c) now (book c) market) as Hok.
  assert (has_position (book c') (id market) = false
          ∧ length (positions (book c')) = pred (length (positions (book c)))
          ∧ price_history_cache c' = price_history_cache c) as (Hgone & Hlen & Hcache).
  { unfold c', exit_step.
    destruct (check_exit_conditions (book c) market) as [[] reason] eqn:E; [|done].
    specialize (Hok reason).
    assert (id market ∈ open_instruments (book c)) as Hin.
    { apply check_exit_loop_fires. unfold check_exit_conditions in E. by rewrite E. }
    unfold close_position in *.
    destruct (list_find _ _) as [[i position]|] eqn:Hfind; cbn -[has_position] in *.
    - apply list_find_Some in Hfind as (Hi & Hid & _).
      split; [|split; [|done]].
      + apply has_position_false. unfold open_instruments. cbn.
        rewrite list_fmap_delete, <- Hid.
        apply delete_first_unique; [done|]. by rewrite list_lookup_fmap, Hi.
      + rewrite length_delete by eauto. lia.
    - apply has_position_true in Hin. congruence. }
  split; [done|]. split; [done|].
  unfold entry_signal. by rewrite Hgone, Hcache.
Qed.

(** ** The sort before the cut *)

Lemma insert_by_liquidity_perm m l : insert_by_liquidity m l ≡ₚ m :: l.
Proof.
  induction l as [|m' l IH]; cbn; [done|].
  destruct (Num.ltb _ _); [|done].
  rewrite IH. apply Permutation_swap.
Qed.

Lemma insert_by_perm {A K} (lt : K → K → bool) (key : A → K) x l :
  insert_by lt key x l ≡ₚ x :: l.
Proof.
  induction l as [|y l IH]; cbn; [done|].
  destruct (lt _ _); [|done].
  rewrite IH. apply Permutation_swap.
Qed.

Lemma insert_by_sorted {A K} (lt : K → K → bool) (key : A → K) x l :
  strict_weak_order lt →
  StronglySorted (not_below lt key) l →
  StronglySorted (not_below lt key) (insert_by lt key x l).
Proof.
  intros [Hasym Hneg]. induction 1 as [|y l Hsorted IH Hall]; cbn.
  - by repeat constructor.
  - destruct (lt (key x) (key y)) eqn:E.
    + constructor; [done|].
      rewrite insert_by_perm. constructor; [|done]. by apply Hasym.
    + constructor; [by constructor|].
      constructor; [done|].
      eapply Forall_impl; [exact Hall|].
      intros z Hz. unfold not_below in *.
      destruct (lt (key x) (key z)) eqn:Exz; [|done].
      destruct (Hneg _ (key y) _ Exz); congruence.
Qed.

Lemma insert_by_filter {A K} (lt : K → K → bool) (key : A → K) (k : K) x l :
  strict_weak_order lt →
  filter (λ a, lt (key a) k = false ∧ lt k (key a) = false) (insert_by lt key x l)
    = filter (λ a, lt (key a) k = false ∧ lt k (key a) = false) (x :: l).
Proof.
  intros [_ Hneg].
  induction l as [|y l IH]; cbn [insert_by]; [done|].
  destruct (lt (key x) (key y)) eqn:E; [|done].
  rewrite (filter_cons _ y), IH, !(filter_cons _ x), (filter_cons _ y).
  repeat case_decide; try done.
  exfalso. destruct (Hneg _ k _ E); naive_solver congruence.
Qed.

Lemma sorted_by_liquidity_sorted_by markets :
  sorted_by_liquidity markets = sorted_by Num.ltb liquidity markets.
Proof.
  unfold sorted_by_liquidity, sorted_by. f_equal.
Qed.

Lemma Num_ltb_strict_weak_order : strict_weak_order Num.ltb.
Proof.
  split.
  - intros x y H%Num_ltb_lt. apply Num_ltb_false_le. by apply Qclt_le_weak.
  - intros x y z H%Num_ltb_lt.
    destruct (Num.ltb x y) eqn:E; [by left|right].
    apply Num_ltb_false_le in E. apply Num_ltb_lt.
    by eapply Qcle_lt_trans.
Qed.

Lemma str_lt_asym s : ∀ t, str_lt s t = true → str_lt t s = false.
Proof.
  induction s as [|a s IH]; intros [|b t]; cbn -[Nat.ltb nat_of_ascii]; try done.
  destruct (Nat.ltb_spec (nat_of_ascii a) (nat_of_ascii b)) as [Hab|Hab];
    destruct (Nat.ltb_spec (nat_of_ascii b) (nat_of_ascii a)) as [Hba|Hba];
    try done; try lia.
  apply IH.
Qed.

Lemma str_lt_neg_trans s :
  ∀ t u, str_lt s u = true → str_lt s t = true ∨ str_lt t u = true.
Proof.
  induction s as [|a s IH]; intros [|b t] [|c u]; cbn -[Nat.ltb nat_of_ascii];
    try done; auto.
  destruct (Nat.ltb_spec (nat_of_ascii a) (nat_of_ascii c)) as [Hac|Hac];
    destruct (Nat.ltb_spec (nat_of_ascii c) (nat_of_ascii a)) as [Hca|Hca];
    destruct (Nat.ltb_spec (nat_of_ascii a) (nat_of_ascii b)) as [Hab|Hab];
    destruct (Nat.ltb_spec (nat_of_ascii b) (nat_of_ascii a)) as [Hba|Hba];
    destruct (Nat.ltb_spec (nat_of_ascii b) (nat_of_ascii c)) as [Hbc|Hbc];
    destruct (Nat.ltb_spec (nat_of_ascii c) (nat_of_ascii b)) as [Hcb|Hcb];
    try done; try lia; auto.
Qed.

Lemma str_lt_strict_weak_order : strict_weak_order str_lt.
Proof. split; [apply str_lt_asym | apply str_lt_neg_trans]. Qed.

(** X11: [sorted(markets, key=..., reverse=True)] returns the same markets
    with no market below one that comes after it, in the order [<] gives
    the keys, and keeps markets none of which is below the other in feed
    order; so no market that the cycle leaves out has a key above that of
    one of the five it processes.  This holds for every key type whose [<]
    is a strict weak order, as it is on numbers (the instance the cycle is
    modelled with) and on text, where the order is by letters and not by
    value. *)
Theorem sorted_by_spec :
  (∀ markets, sorted_by_liquidity markets = sorted_by Num.ltb liquidity markets) ∧
  strict_weak_order Num.ltb ∧
  strict_weak_order str_lt ∧
  ∀ (A K : Type) (lt : K → K → bool) (key : A → K),
    strict_weak_order lt →
    ∀ l : list A,
      let sorted := sorted_by lt key l in
      sorted ≡ₚ l ∧
      StronglySorted (not_below lt key) sorted ∧
      (∀ k, filter (λ a, lt (key a) k = false ∧ lt k (key a) = false) sorted
            = filter (λ a, lt (key a) k = false ∧ lt k (key a) = false) l) ∧
      (∀ a b, a ∈ take 5 sorted → b ∈ drop 5 sorted → lt (key a) (key b) = false).
Proof.
  split; [apply sorted_by_liquidity_sorted_by|].
  split; [apply Num_ltb_strict_weak_order|].
  split; [apply str_lt_strict_weak_order|].
  intros A K lt key Hlt l sorted. subst sorted.
  assert (sorted_by lt key l ≡ₚ l) as Hperm.
  { induction l as [|x l IH]; [done|]. cbn.
    by rewrite insert_by_perm, IH. }
  assert (StronglySorted (not_below lt key) (sorted_by lt key l)) as Hsorted.
  { clear Hperm. induction l as [|x l IH]; [constructor|]. cbn.
    by apply insert_by_sorted. }
  split; [done|]. split; [done|]. split.
  - intros k. clear Hperm Hsorted. induction l as [|x l IH]; [done|].
    cbn [sorted_by foldr].
    rewrite insert_by_filter by done. rewrite !(filter_cons _ x).
    fold (sorted_by lt key l). by rewrite IH.
  - intros a b Ha Hb.
    rewrite <- (take_drop 5 (sorted_by lt key l)) in Hsorted.
    by apply (StronglySorted_app_1_elem_of (not_below lt key) _ _ a b Hsorted).
Qed.

(** ** What a cycle writes *)

Lemma logs_refl c : logs 0 0 c c [].
Proof. split; try done; [by rewrite app_nil_r|lia]. Qed.

Lemma logs_trans n1 g1 n2 g2 c1 c2 c3 new1 new2 :
  logs n1 g1 c1 c2 new1 → logs n2 g2 c2 c3 new2 →
  logs (n1 + n2) (g1 + g2) c1 c3 (new1 ++ new2).
Proof.
  intros [] []. split; try congruence.
  - rewrite app_assoc. congruence.
  - rewrite length_app. lia.
  - lia.
Qed.

Lemma logs_weaken n g n' g' c c' new :
  logs n g c c' new → (n ≤ n')%nat → (g ≤ g')%nat → logs n' g' c c' new.
Proof. intros [] ??. split; try done; lia. Qed.

Lemma mark_step_logs c market : logs 0 0 c (mark_step c market) [].
Proof.
  destruct (update_position_pnl_marks (book c) market) as [Hids _ _ _ _].
  split; cbn; try done; [by rewrite app_nil_r|].
  apply (f_equal length) in Hids. rewrite !length_fmap in Hids. lia.
Qed.

Lemma exit_step_logs now c market :
  ∃ new, logs 1 0 c (exit_step now c market) new ∧ Forall is_sell new ∧
    open_instruments (book (exit_step now c market))
      `sublist_of` open_instruments (book c).
Proof.
  unfold exit_step.
  destruct (check_exit_conditions _ _) as [[] reason];
    [|exists []; split; [eapply logs_weaken; [apply logs_refl|lia..]|done]].
  pose proof (close_position_instruments (files c) now (book c) market reason) as Hsub.
  unfold close_position in *.
  destruct (list_find _ _) as [[i position]|] eqn:Hfind; cbn in *.
  - apply list_find_Some in Hfind as (Hi & _).
    eexists. split; [|split; [|done]].
    + split; cbn; [reflexivity|cbn; lia|done|done|].
      rewrite length_delete by eauto. lia.
    + by repeat constructor.
  - exists []. split; [|done].
    destruct c. eapply logs_weaken; [apply logs_refl|lia..].
Qed.

Lemma entry_step_logs now c market :
  ∃ new, logs 1 1 c (entry_step now c market) new.
Proof.
  assert (∃ new, logs 1 1 c c new) as Hsame
    by (exists []; eapply logs_weaken; [apply logs_refl|lia..]).
  assert (∃ new, logs 1 1 c (mkCycle (files c) (price_history_cache c) (book c)) new)
    as Hsame' by by destruct c.
  unfold entry_step.
  destruct (entry_signal c market) as [[[signal|] strat]|]; try done.
  unfold execute_trade.
  destruct (decide (signal ≠ BUY)); [done|].
  destruct (decide (CIRCUIT_BREAKER ≤ _)%Z); [done|].
  destruct (fdiv _ _); [|done].
  destruct (Num.ltb _ _); [done|].
  eexists. split; cbn; [reflexivity|cbn; lia|done|done|].
  rewrite length_app. cbn. lia.
Qed.

Lemma process_market_logs now c market :
  ∃ new, logs 2 1 c (process_market now c market) new.
Proof.
  unfold process_market.
  destruct (exit_step_logs now (mark_step c market) market) as (new1 & H1 & _).
  destruct (entry_step_logs now (exit_step now (mark_step c market) market) market)
    as (new2 & H2).
  exists (new1 ++ new2).
  apply (logs_trans 0 0 2 1 _ _ _ [] _ (mark_step_logs c market)).
  apply (logs_trans 1 0 1 1 _ _ _ _ _ H1 H2).
Qed.

Lemma foldl_process_market_logs now markets :
  ∀ c, ∃ new,
    logs (2 * length markets) (length markets) c
         (foldl (process_market now) c markets) new.
Proof.
  induction markets as [|m ms IH]; intros c; cbn [foldl length].
  - exists []. apply logs_refl.
  - destruct (process_market_logs now c m) as (new1 & H1).
    destruct (IH (process_market now c m)) as (new2 & H2).
    exists (new1 ++ new2).
    eapply logs_weaken; [apply (logs_trans _ _ _ _ _ _ _ _ _ H1 H2)|lia..].
Qed.

(** X12: a cycle only ever appends to the trade log, at most two records
    (one SELL, one BUY) for each of the at most five markets it processes,
    and opens at most one position per processed market.  On a feed that
    is not empty it appends exactly one point to the equity curve, after
    the points already there, carrying the cash, equity, position count
    and max drawdown of the portfolio it saves; and whatever the feed, the
    portfolio it returns is the one the next cycle will load. *)
Theorem cycle_writes now fs cache markets :
  let c := run_trading_cycle now fs cache markets in
  let n := (5 `min` length markets)%nat in
  (∃ new,
     load_trades (files c) = load_trades fs ++ new ∧ (length new ≤ 2 * n)%nat) ∧
  (length (positions (book c)) ≤ length (positions (load_positions fs)) + n)%nat ∧
  load_positions (files c) = book c ∧
  (markets ≠ [] →
     default [] (EQUITY_FILE (files c)) =
       default [] (EQUITY_FILE fs) ++
         [mkEquityLog now (cash (book c)) (equity (book c))
                      (length (positions (book c))) (max_drawdown (book c))]).
Proof.
  cbn zeta. destruct markets as [|m ms].
  - rewrite run_trading_cycle_empty. cbn.
    split; [exists []; by rewrite app_nil_r|]. split; [lia|done].
  - rewrite run_trading_cycle_nonempty by done.
    destruct (foldl_process_market_logs now
                (take 5 (sorted_by_liquidity (m :: ms)))
                (mkCycle fs cache (load_positions fs))) as (new & [Ht Hn Hp He Hb]).
    assert (length (take 5 (sorted_by_liquidity (m :: ms)))
            = (5 `min` length (m :: ms))%nat) as Hlen.
    { rewrite length_take. f_equal.
      apply Permutation_length.
      clear. induction (m :: ms) as [|x l IH]; [done|]. cbn.
      by rewrite insert_by_liquidity_perm, IH. }
    rewrite Hlen in Hn, Hb. cbn in *.
    split; [by exists new|]. split; [done|]. split; [done|].
    intros _. by rewrite He.
Qed.

(** ** A cold cache *)

Lemma mark_step_short_cache n c market :
  short_cache n (price_history_cache c) →
  short_cache (S n) (price_history_cache (mark_step c market)).
Proof.
  intros Hshort k h. cbn. unfold update_history.
  destruct (decide (k = id market)) as [->|Hk].
  - rewrite lookup_insert_eq. intros [= <-].
    assert (length (default [] (price_history_cache c !! id market)) ≤ n)%nat
      as Hold.
    { destruct (price_history_cache c !! id market) as [old|] eqn:E; cbn; [|lia].
      by apply (Hshort (id market)). }
    case_decide.
    + unfold last_n. rewrite length_drop, length_app. cbn. lia.
    + rewrite length_app. cbn. lia.
  - rewrite lookup_insert_ne by done. intros Hh.
    pose proof (Hshort k h Hh). lia.
Qed.

Lemma exit_step_cache now c market :
  price_history_cache (exit_step now c market) = price_history_cache c.
Proof.
  unfold exit_step. destruct (check_exit_conditions _ _) as [[] reason]; [|done].
  by destruct (close_position _ _ _ _ _) as [[fs pf] ok].
Qed.

Lemma process_market_cold now n c market :
  short_cache n (price_history_cache c) → (S n < 10)%nat →
  process_market now c market = exit_step now (mark_step c market) market ∧
  short_cache (S n) (price_history_cache (process_market now c market)).
Proof.
  intros Hshort Hn.
  pose proof (mark_step_short_cache n c market Hshort) as Hmark.
  rewrite <- (exit_step_cache now _ market) in Hmark.
  assert (process_market now c market = exit_step now (mark_step c market) market)
    as Heq.
  { unfold process_market. apply entry_step_short.
    destruct (price_history_cache _ !! id market) as [h|] eqn:E; cbn; [|lia].
    pose proof (Hmark _ _ E). lia. }
  by rewrite Heq.
Qed.

Lemma foldl_process_market_cold now markets :
  ∀ n c,
    short_cache n (price_history_cache c) → (n + length markets < 10)%nat →
    let c' := foldl (process_market now) c markets in
    open_instruments (book c') `sublist_of` open_instruments (book c) ∧
    ∃ new, load_trades (files c') = load_trades (files c) ++ new ∧
           Forall is_sell new.
Proof.
  induction markets as [|m ms IH]; intros n c Hshort Hn; cbn [foldl].
  - split; [done|]. exists []. by rewrite app_nil_r.
  - cbn in Hn.
    destruct (process_market_cold now n c m Hshort ltac:(lia)) as [Heq Hshort'].
    destruct (IH (S n) (process_market now c m) Hshort' ltac:(lia))
      as (Hsub & new2 & Htrades & Hsells).
    destruct (exit_step_logs now (mark_step c m) m) as (new1 & [Ht _ _ _ _] & Hs1 & Hsub1).
    rewrite <- Heq in Ht, Hsub1. cbn in Ht, Hsub1.
    rewrite update_position_pnl_instruments in Hsub1.
    split; [by etrans|].
    exists (new1 ++ new2). split; [|by apply Forall_app].
    rewrite Htrades, Ht. by rewrite app_assoc.
Qed.

(** X13: a cycle whose cached histories all hold at most four prices opens
    no position: the regime detector wants ten prices and at most five are
    added in a cycle.  Its open instruments are among those it loaded, in
    order, and every record it adds to the trade log is a SELL.  The
    [__main__] block starts each run on an empty cache, so a run of the
    installed script never buys. *)
Theorem cold_cache_never_buys now fs markets :
  (∀ cache,
     short_cache 4 cache →
     let c := run_trading_cycle now fs cache markets in
     open_instruments (book c) `sublist_of` open_instruments (load_positions fs) ∧
     ∃ new, load_trades (files c) = load_trades fs ++ new ∧ Forall is_sell new) ∧
  (let c := main now fs markets in
   open_instruments (book c) `sublist_of` open_instruments (load_positions fs) ∧
   ∃ new, load_trades (files c) = load_trades fs ++ new ∧ Forall is_sell new).
Proof.
  assert (∀ cache,
     short_cache 4 cache →
     let c := run_trading_cycle now fs cache markets in
     open_instruments (book c) `sublist_of` open_instruments (load_positions fs) ∧
     ∃ new, load_trades (files c) = load_trades fs ++ new ∧ Forall is_sell new)
    as Hcold.
  { intros cache Hshort. cbn zeta. destruct markets as [|m ms].
    - rewrite run_trading_cycle_empty. cbn. split; [done|].
      exists []. by rewrite app_nil_r.
    - rewrite run_trading_cycle_nonempty by done.
      destruct (foldl_process_market_cold now
                  (take 5 (sorted_by_liquidity (m :: ms))) 4
                  (mkCycle fs cache (load_positions fs)) Hshort)
        as (Hsub & new & Ht & Hs).
      { rewrite length_take. lia. }
      cbn in *. split; [done|]. by exists new. }
  split; [exact Hcold|]. apply Hcold.
  intros k h Hk. by rewrite lookup_empty in Hk.
Qed.

(** ** Exits in terms of the price *)

Lemma Qcle_div_r (x y z : Qc) : 0 < z → (x ≤ y / z ↔ x * z ≤ y).
Proof.
  intros Hz. assert (z ≠ 0) as Hne by (intros ->; by apply Qclt_not_eq in Hz).
  assert (y / z * z = y) as Hdiv by (field; done).
  split; intros H.
  - rewrite <- Hdiv. apply Qcmult_le_compat_r; [done|by apply Qclt_le_weak].
  - apply (Qcmult_lt_0_le_reg_r _ _ z); [done|]. by rewrite Hdiv.
Qed.

Lemma Qcle_div_l (x y z : Qc) : 0 < z → (y / z ≤ x ↔ y ≤ x * z).
Proof.
  intros Hz. assert (z ≠ 0) as Hne by (intros ->; by apply Qclt_not_eq in Hz).
  assert (y / z * z = y) as Hdiv by (field; done).
  split; intros H.
  - rewrite <- Hdiv. apply Qcmult_le_compat_r; [done|by apply Qclt_le_weak].
  - apply (Qcmult_lt_0_le_reg_r _ _ z); [done|]. by rewrite Hdiv.
Qed.

Lemma mark_position_pct_le position y y' :
  0 ≤ shares position →
  0 < shares position * entry_price position →
  y ≤ y' →
  unrealized_pnl_pct (mark_position position y)
    ≤ unrealized_pnl_pct (mark_position position y').
Proof.
  intros Hs Hc Hy. cbn.
  destruct (Num.eqb (shares position * entry_price position) 0) eqn:E.
  { apply Num_eqb_eq in E. rewrite E in Hc. by apply Qclt_not_eq in Hc. }
  cbn. apply Qcle_div_r; [done|].
  assert (shares position * entry_price position ≠ 0) as Hne
    by (intros H; rewrite H in Hc; by apply Qclt_not_eq in Hc).
  replace ((shares position * y - shares position * entry_price position)
           / (shares position * entry_price position)
           * (shares position * entry_price position))
    with (shares position * y - shares position * entry_price position)
    by (field; split; intros H0; apply Hne; rewrite H0; ring).
  unfold Qcminus. apply Qcplus_le_compat; [|apply Qcle_refl].
  rewrite !(Qcmult_comm (shares position)). by apply Qcmult_le_compat_r.
Qed.

Lemma mark_position_pct_entry position :
  unrealized_pnl_pct (mark_position position (entry_price position)) = 0.
Proof.
  cbn. destruct (Num.eqb _ 0); cbn; [done|].
  unfold Qcminus. rewrite Qcplus_opp_r. unfold Qcdiv. by rewrite Qcmult_0_l.
Qed.

Lemma exit_decision_profit_target position r :
  exit_decision position = Some (profit_target r) ↔
  profit_target_pct position ≤ unrealized_pnl_pct position ∧
  r = unrealized_pnl_pct position.
Proof.
  unfold exit_decision.
  destruct (Num.leb (profit_target_pct position) _) eqn:Et.
  - apply Num_leb_le in Et. split; [by intros [= <-]|by intros [_ ->]].
  - split.
    + by destruct (Num.leb _ (- _)).
    + intros [H%Num_leb_le _]. congruence.
Qed.

Lemma exit_decision_stop_loss position r :
  exit_decision position = Some (stop_loss r) ↔
  unrealized_pnl_pct position < profit_target_pct position ∧
  unrealized_pnl_pct position ≤ - stop_loss_pct position ∧
  r = unrealized_pnl_pct position.
Proof.
  unfold exit_decision.
  destruct (Num.leb (profit_target_pct position) _) eqn:Et.
  - apply Num_leb_le in Et. split; [done|].
    intros [H _]. by apply Qclt_not_le in H.
  - assert (unrealized_pnl_pct position < profit_target_pct position) as Hlt.
    { apply Qcnot_le_lt. intros H%Num_leb_le. congruence. }
    destruct (Num.leb _ (- _)) eqn:Es.
    + apply Num_leb_le in Es. split; [by intros [= <-]|by intros (_ & _ & ->)].
    + split; [done|]. intros (_ & H%Num_leb_le & _). congruence.
Qed.

(** X14: the exit rules in terms of the price a position is marked at.
    For a position with a positive cost basis the stored fraction does not
    fall when the price rises, so a profit-target exit at one price is a
    profit-target exit at every higher price and a stop-loss exit at one
    price is a stop-loss exit at every lower price.  Marked at its entry
    price a position carries fraction 0; hence, with positive target and
    stop, the profit target is never hit at or below the entry price and
    the stop loss never at or above it.  A position whose cost basis is
    zero is marked at fraction 0 and never exits. *)
Theorem exit_decision_monotone position y y' :
  let low := mark_position position y in
  let high := mark_position position y' in
  let entry := entry_price position in
  let target := profit_target_pct position in
  let stop := stop_loss_pct position in
  (0 ≤ shares position → 0 < shares position * entry → y ≤ y' →
     unrealized_pnl_pct low ≤ unrealized_pnl_pct high ∧
     (exit_decision low = Some (profit_target (unrealized_pnl_pct low)) →
      exit_decision high = Some (profit_target (unrealized_pnl_pct high))) ∧
     (exit_decision high = Some (stop_loss (unrealized_pnl_pct high)) →
      exit_decision low = Some (stop_loss (unrealized_pnl_pct low)))) ∧
  unrealized_pnl_pct (mark_position position entry) = 0 ∧
  (0 ≤ shares position → 0 < shares position * entry → 0 < target → 0 < stop →
     (y ≤ entry → ∀ r, exit_decision low ≠ Some (profit_target r)) ∧
     (entry ≤ y → ∀ r, exit_decision low ≠ Some (stop_loss r))) ∧
  (shares position * entry = 0 → 0 < target → 0 < stop →
     unrealized_pnl_pct low = 0 ∧ exit_decision low = None).
Proof.
  intros low high entry target stop.
  refine (conj _ (conj (mark_position_pct_entry position) (conj _ _))).
  - intros Hs Hc Hy.
    pose proof (mark_position_pct_le position y y' Hs Hc Hy) as Hle.
    fold low high in Hle. split; [done|]. split.
    + intros [Ht _]%exit_decision_profit_target.
      apply exit_decision_profit_target. split; [|done].
      by eapply Qcle_trans.
    + intros (Ht & Hsl & _)%exit_decision_stop_loss.
      apply exit_decision_stop_loss. split; [|split; [|done]].
      * by eapply Qcle_lt_trans.
      * by eapply Qcle_trans.
  - intros Hs Hc Ht Hsl. split.
    + intros Hy r [Hpt _]%exit_decision_profit_target.
      pose proof (mark_position_pct_le position y entry Hs Hc Hy) as Hle.
      rewrite mark_position_pct_entry in Hle. fold low in Hle.
      apply (Qclt_not_le _ _ Ht). by eapply Qcle_trans.
    + intros Hy r (_ & Hst & _)%exit_decision_stop_loss.
      pose proof (mark_position_pct_le position entry y Hs Hc Hy) as Hle.
      rewrite mark_position_pct_entry in Hle. fold low in Hle.
      assert (0 ≤ - stop) as H by (eapply Qcle_trans; [exact Hle|exact Hst]).
      apply Qcopp_le_compat in H. rewrite Qcopp_involutive in H.
      by apply Qcle_not_lt in H.
  - intros Hzero Ht Hs.
    assert (unrealized_pnl_pct low = 0) as Hpct.
    { cbn. fold entry. rewrite Hzero. by vm_compute. }
    split; [done|]. unfold exit_decision. rewrite Hpct.
    change (profit_target_pct low) with target.
    change (stop_loss_pct low) with stop.
    assert (Num.leb target 0 = false) as ->.
    { apply not_true_iff_false. intros H%Num_leb_le. by apply Qcle_not_lt in H. }
    assert (Num.leb 0 (- stop) = false) as ->; [|done].
    apply not_true_iff_false. intros H%Num_leb_le.
    apply Qcopp_le_compat in H. rewrite Qcopp_involutive in H.
    by apply Qcle_not_lt in H.
Qed.

(** ** The dashboard's metrics *)

Lemma fdiv_ok (x y : Qc) : y ≠ 0 → fdiv x y = Ok (x / y).
Proof.
  intros Hy. unfold fdiv. destruct (Num.eqb y 0) eqn:E; [|done].
  by apply Num_eqb_eq in E.
Qed.

Lemma fdiv_zero (x : Qc) : fdiv x 0 = Raise ZeroDivisionError.
Proof. done. Qed.

Lemma of_nat_length_nonzero {A} (l : list A) : l ≠ [] → of_nat (length l) ≠ 0.
Proof. intros H. apply of_nat_nonzero. by destruct l. Qed.

Lemma mean_ok (l : list Qc) :
  l ≠ [] → Dashboard.mean l = Ok (fsum l / of_nat (length l)).
Proof. intros H. apply fdiv_ok. by apply of_nat_length_nonzero. Qed.

Lemma traverse_ok {A B} (f : A → result B) (g : A → B) (l : list A) :
  (∀ x, x ∈ l → f x = Ok (g x)) → Dashboard.traverse f l = Ok (g <$> l).
Proof.
  induction l as [|x l IH]; intros Hf; [done|]. cbn.
  rewrite (Hf x) by left. cbn. rewrite IH; [done|].
  intros y Hy. apply Hf. by right.
Qed.

Lemma max_list_ge (l : list Qc) :
  ∀ x, x ≤ Dashboard.max_list x l ∧ ∀ y, y ∈ l → y ≤ Dashboard.max_list x l.
Proof.
  induction l as [|z l IH]; intros x; cbn.
  - split; [apply Qcle_refl|]. intros y Hy. by apply elem_of_nil in Hy.
  - destruct (Num.ltb x z) eqn:E.
    + apply Num_ltb_lt in E. destruct (IH z) as [Hz Hl]. split.
      * eapply Qcle_trans; [by apply Qclt_le_weak|done].
      * intros y [->|Hy]%elem_of_cons; [done|by apply Hl].
    + apply Num_ltb_false_le in E. destruct (IH x) as [Hx Hl]. split; [done|].
      intros y [->|Hy]%elem_of_cons; [by eapply Qcle_trans|by apply Hl].
Qed.

Lemma max_list_elem (l : list Qc) :
  ∀ x, Dashboard.max_list x l ∈ x :: l.
Proof.
  induction l as [|z l IH]; intros x; [left|].
  change (Dashboard.max_list x (z :: l))
    with (Dashboard.max_list (if Num.ltb x z then z else x) l).
  destruct (Num.ltb x z).
  - right. apply IH.
  - pose proof (IH x) as [Heq|Hin]%elem_of_cons.
    + rewrite Heq. left.
    + right. by right.
Qed.

Lemma fsum_nonneg (l : list Qc) : Forall (λ x, 0 ≤ x) l → 0 ≤ fsum l.
Proof.
  induction 1 as [|x l Hx _ IH]; [by vm_compute|]. rewrite fsum_cons.
  replace (Q2Qc 0) with (0 + 0) by ring. by apply Qcplus_le_compat.
Qed.

Lemma fsum_nonpos (l : list Qc) : Forall (λ x, x ≤ 0) l → fsum l ≤ 0.
Proof.
  induction 1 as [|x l Hx _ IH]; [by vm_compute|]. rewrite fsum_cons.
  replace (Q2Qc 0) with (0 + 0) by ring. by apply Qcplus_le_compat.
Qed.

Lemma of_nat_le (a b : nat) : (a ≤ b)%nat → of_nat a ≤ of_nat b.
Proof.
  intros H. unfold Qcle, of_nat. cbn. rewrite !Qred_correct.
  unfold Qle. cbn. lia.
Qed.

Lemma of_nat_pos (n : nat) : n ≠ 0%nat → 0 < of_nat n.
Proof.
  intros H. unfold Qclt, of_nat. cbn. rewrite !Qred_correct.
  unfold Qlt. cbn. lia.
Qed.

Lemma Qcdiv_nonneg (a b : Qc) : 0 ≤ a → 0 < b → 0 ≤ a / b.
Proof. intros Ha Hb. apply Qcle_div_r; [done|]. by rewrite Qcmult_0_l. Qed.

Lemma Qcdiv_nonpos (a b : Qc) : a ≤ 0 → 0 < b → a / b ≤ 0.
Proof. intros Ha Hb. apply Qcle_div_l; [done|]. by rewrite Qcmult_0_l. Qed.

(** The trade half of [calculate_metrics] goes through whenever there is a
    SELL; what is left to go wrong is the equity curve. *)
Lemma calculate_metrics_trades sqrt trades equity_history :
  Dashboard.sells trades ≠ [] →
  ∃ win_rate avg_win avg_loss profit_factor,
    let sells := Dashboard.sells trades in
    let wins := filter (λ pnl, 0 < pnl) sells in
    let losses := filter (λ pnl, pnl ≤ 0) sells in
    win_rate = of_nat (length wins) / of_nat (length sells) ∧
    avg_win = (if decide (wins ≠ []) then fsum wins / of_nat (length wins) else 0) ∧
    avg_loss =
      (if decide (losses ≠ []) then fsum losses / of_nat (length losses) else 0) ∧
    0 ≤ profit_factor ∧
    Dashboard.calculate_metrics sqrt trades equity_history =
      curve ← Dashboard.equity_metrics sqrt equity_history;
      Ok (Dashboard.mkMetrics (length sells) (length wins) (length losses)
            win_rate (fsum sells) avg_win avg_loss profit_factor curve.1 curve.2).
Proof.
  intros Hsells.
  set (sells := Dashboard.sells trades) in *.
  set (wins := filter (λ pnl, 0 < pnl) sells).
  set (losses := filter (λ pnl, pnl ≤ 0) sells).
  assert (0 ≤ (if decide (wins ≠ []) then fsum wins else 0)) as Hprofit.
  { case_decide; [|done]. apply fsum_nonneg.
    apply Forall_forall. intros x [Hx _]%list_elem_of_filter.
    by apply Qclt_le_weak. }
  set (gross_loss := if decide (losses ≠ []) then Dashboard.fabs (fsum losses) else 0).
  eexists _, _, _,
    (if Num.ltb 0 gross_loss
     then (if decide (wins ≠ []) then fsum wins else 0) / gross_loss else 0).
  cbn zeta. split; [reflexivity|]. split; [reflexivity|]. split; [reflexivity|].
  split.
  - destruct (Num.ltb 0 gross_loss) eqn:E; [|done].
    apply Num_ltb_lt in E. by apply Qcdiv_nonneg.
  - unfold Dashboard.calculate_metrics. fold sells.
    rewrite decide_False by done. cbn zeta. fold wins losses.
    rewrite (fdiv_ok (of_nat (length wins)) (of_nat (length sells)))
      by by apply of_nat_length_nonzero.
    assert ((if decide (wins ≠ []) then Dashboard.mean wins else Ok 0)
            = Ok (if decide (wins ≠ []) then fsum wins / of_nat (length wins) else 0))
      as -> by (destruct (decide (wins ≠ [])); [by apply mean_ok|done]).
    assert ((if decide (losses ≠ []) then Dashboard.mean losses else Ok 0)
            = Ok (if decide (losses ≠ [])
                  then fsum losses / of_nat (length losses) else 0))
      as -> by (destruct (decide (losses ≠ [])); [by apply mean_ok|done]).
    cbn. fold gross_loss.
    destruct (Num.ltb 0 gross_loss) eqn:E; cbn.
    + apply Num_ltb_lt in E. rewrite fdiv_ok; [|intros H; rewrite H in E; done].
      cbn. by destruct (Dashboard.equity_metrics sqrt equity_history) as [[??]|].
    + by destruct (Dashboard.equity_metrics sqrt equity_history) as [[??]|].
Qed.

Lemma equity_metrics_drawdown sqrt equity_history dd sharpe :
  Dashboard.equity_metrics sqrt equity_history = Ok (dd, sharpe) →
  0 ≤ dd ∧
  ∀ first rest, equity_history = first :: rest →
    log_equity first ≠ 0 ∧
    (∀ point, point ∈ equity_history →
       (log_equity first - log_equity point) / log_equity first ≤ dd) ∧
    (dd = 0 ∨ ∃ point, point ∈ equity_history ∧
       dd = (log_equity first - log_equity point) / log_equity first).
Proof.
  unfold Dashboard.equity_metrics.
  destruct equity_history as [|first rest]; cbn [fmap list_fmap].
  { intros [= <- <-]. split; [done|]. by intros ?? [=]. }
  set (e0 := log_equity first).
  set (equities := e0 :: (log_equity <$> rest)).
  destruct (decide (e0 = 0)) as [Hzero|Hne].
  { cbn. rewrite Hzero. by rewrite fdiv_zero. }
  rewrite (traverse_ok _ (λ e, (e0 - e) / e0)) by (intros; by apply fdiv_ok).
  cbn [mbind result_bind bind].
  set (drawdowns := (λ e, (e0 - e) / e0) <$> equities).
  destruct (Dashboard.sharpe_of sqrt equities) as [s|]; [|done].
  cbn. intros [= <- <-].
  set (d0 := (e0 - e0) / e0).
  set (ds := ((λ e, (e0 - e) / e0) <$> (log_equity <$> rest)) ++ [0]).
  destruct (max_list_ge ds d0) as [Hd0 Hds].
  assert (0 ≤ Dashboard.max_list d0 ds) as Hpos.
  { apply Hds. unfold ds. apply elem_of_app. right. by left. }
  split; [done|]. intros ? ? [= <- <-]. split; [done|]. split.
  - intros point [->|Hin]%elem_of_cons; [done|].
    apply Hds. unfold ds. apply elem_of_app. left.
    rewrite <- list_fmap_compose.
    by apply (list_elem_of_fmap_2 ((λ e, (e0 - e) / e0) ∘ log_equity) _ point).
  - pose proof (max_list_elem ds d0) as [->|Hin]%elem_of_cons.
    + right. exists first. split; [left|done].
    + unfold ds in Hin. apply elem_of_app in Hin as [Hin|Hin].
      * rewrite <- list_fmap_compose in Hin.
        apply list_elem_of_fmap in Hin as (point & Heq & Hp).
        right. exists point. split; [by right|].
        etrans; [|exact Heq]. unfold ds. by rewrite <- list_fmap_compose.
      * apply list_elem_of_singleton in Hin. by left.
Qed.

(** X15: whenever [calculate_metrics] returns, the trade count is the
    number of SELL records and splits into wins (PnL above 0) and losses
    (PnL at or below 0); the win rate is wins over trades and lies between
    0 and 1; the average win is not negative and the average loss not
    positive; profit factor and max drawdown are not negative; and the
    total PnL is the sum over the SELL records. *)
Theorem calculate_metrics_sound sqrt trades equity_history m :
  Dashboard.calculate_metrics sqrt trades equity_history = Ok m →
  Dashboard.total_trades m = length (Dashboard.sells trades) ∧
  Dashboard.total_trades m
    = (Dashboard.winning_trades m + Dashboard.losing_trades m)%nat ∧
  Dashboard.winning_trades m
    = length (filter (λ pnl, 0 < pnl) (Dashboard.sells trades)) ∧
  (Dashboard.sells trades ≠ [] →
     Dashboard.win_rate m
       = of_nat (Dashboard.winning_trades m) / of_nat (Dashboard.total_trades m)) ∧
  0 ≤ Dashboard.win_rate m ∧ Dashboard.win_rate m ≤ 1 ∧
  0 ≤ Dashboard.avg_win m ∧ Dashboard.avg_loss m ≤ 0 ∧
  0 ≤ Dashboard.profit_factor m ∧ 0 ≤ Dashboard.max_drawdown m ∧
  Dashboard.total_pnl m = fsum (Dashboard.sells trades).
Proof.
  destruct (decide (Dashboard.sells trades = [])) as [Hnone|Hsome].
  { unfold Dashboard.calculate_metrics. rewrite decide_True by done.
    intros [= <-]. rewrite Hnone. cbn. repeat split; try done. }
  destruct (calculate_metrics_trades sqrt trades equity_history Hsome)
    as (wr & aw & al & pf & Hwr & Haw & Hal & Hpf & ->).
  set (sells := Dashboard.sells trades) in *.
  set (wins := filter (λ pnl, 0 < pnl) sells) in *.
  set (losses := filter (λ pnl, pnl ≤ 0) sells) in *.
  destruct (Dashboard.equity_metrics sqrt equity_history) as [[dd sr]|] eqn:Hcurve;
    [|done].
  cbn. intros [= <-]. cbn.
  destruct (equity_metrics_drawdown _ _ _ _ Hcurve) as [Hdd _].
  assert (length sells = (length wins + length losses)%nat) as Hsplit.
  { unfold wins, losses. clear. induction sells as [|x l IH]; [done|].
    rewrite !filter_cons. destruct (decide (0 < x)) as [Hx|Hx].
    - rewrite decide_False by by apply Qclt_not_le. cbn. lia.
    - rewrite decide_True by by apply Qcnot_lt_le. cbn. lia. }
  assert (0 < of_nat (length sells)) as Hpos
    by (apply of_nat_pos; by destruct sells).
  repeat split; try done.
  - rewrite Hwr. apply Qcdiv_nonneg; [|done].
    replace (Q2Qc 0) with (of_nat 0) by (apply Qc_is_canon; reflexivity).
    apply of_nat_le. lia.
  - rewrite Hwr. apply Qcle_div_l; [done|]. rewrite Qcmult_1_l.
    apply of_nat_le. lia.
  - rewrite Haw. destruct (decide (wins ≠ [])) as [Hw|Hw]; [|apply Qcle_refl].
    apply Qcdiv_nonneg; [|apply of_nat_pos; by destruct wins].
    apply fsum_nonneg, Forall_forall.
    intros x [Hx _]%list_elem_of_filter. by apply Qclt_le_weak.
  - rewrite Hal. destruct (decide (losses ≠ [])) as [Hl|Hl]; [|apply Qcle_refl].
    apply Qcdiv_nonpos; [|apply of_nat_pos; by destruct losses].
    apply fsum_nonpos, Forall_forall.
    by intros x [Hx _]%list_elem_of_filter.
Qed.

(** X16: the dashboard's max drawdown is measured from the first point of
    the equity curve, not from a running peak: when the metrics come back
    for a ledger with a SELL and a curve, the first equity is not 0, the
    figure is at least the fractional fall of every point below the first
    one, and it is either 0 or exactly one of those falls.  With no SELL
    on record the figure is 0 whatever the curve shows. *)
Theorem dashboard_drawdown_from_first_point sqrt trades equity_history m :
  Dashboard.calculate_metrics sqrt trades equity_history = Ok m →
  (Dashboard.sells trades = [] → Dashboard.max_drawdown m = 0) ∧
  (Dashboard.sells trades ≠ [] →
   ∀ first rest, equity_history = first :: rest →
     log_equity first ≠ 0 ∧
     (∀ point, point ∈ equity_history →
        (log_equity first - log_equity point) / log_equity first
          ≤ Dashboard.max_drawdown m) ∧
     (Dashboard.max_drawdown m = 0 ∨
      ∃ point, point ∈ equity_history ∧
        Dashboard.max_drawdown m
          = (log_equity first - log_equity point) / log_equity first)).
Proof.
  intros Hm. split.
  - intros Hnone. unfold Dashboard.calculate_metrics in Hm.
    rewrite decide_True in Hm by done. by injection Hm as <-.
  - intros Hsome.
    destruct (calculate_metrics_trades sqrt trades equity_history Hsome)
      as (wr & aw & al & pf & _ & _ & _ & _ & Heq).
    rewrite Heq in Hm.
    destruct (Dashboard.equity_metrics sqrt equity_history) as [[dd sr]|] eqn:Hcurve;
      [|done].
    cbn in Hm. injection Hm as <-. cbn.
    by destruct (equity_metrics_drawdown _ _ _ _ Hcurve) as [_ Hdd].
Qed.

(** X17: the edges of [calculate_metrics].  Without a SELL it returns all
    zeros and never looks at the equity curve.  With a SELL it raises
    ZeroDivisionError when the curve starts at equity 0, and
    StatisticsError when the curve has exactly two points (one return is
    too few for a standard deviation); with an empty curve or a single
    point it returns max drawdown 0 and Sharpe ratio 0. *)
Theorem calculate_metrics_edges sqrt trades equity_history :
  (Dashboard.sells trades = [] →
     Dashboard.calculate_metrics sqrt trades equity_history
       = Ok (Dashboard.mkMetrics 0 0 0 0 0 0 0 0 0 0)) ∧
  (Dashboard.sells trades ≠ [] →
     (∀ first rest,
        equity_history = first :: rest → log_equity first = 0 →
        Dashboard.calculate_metrics sqrt trades equity_history
          = Raise ZeroDivisionError) ∧
     (∀ p q,
        equity_history = [p; q] → log_equity p ≠ 0 →
        Dashboard.calculate_metrics sqrt trades equity_history
          = Raise StatisticsError) ∧
     (equity_history = [] ∨
      (∃ p, equity_history = [p] ∧ log_equity p ≠ 0) →
      ∃ m, Dashboard.calculate_metrics sqrt trades equity_history = Ok m ∧
           Dashboard.max_drawdown m = 0 ∧ Dashboard.sharpe_ratio m = 0)).
Proof.
  split.
  { intros Hnone. unfold Dashboard.calculate_metrics. by rewrite decide_True. }
  intros Hsome.
  destruct (calculate_metrics_trades sqrt trades equity_history Hsome)
    as (wr & aw & al & pf & _ & _ & _ & _ & ->).
  split; [|split].
  - intros first rest -> Hzero. unfold Dashboard.equity_metrics. cbn.
    by rewrite Hzero, fdiv_zero.
  - intros p q -> Hp. unfold Dashboard.equity_metrics. cbn.
    rewrite !fdiv_ok by done. cbn.
    unfold Dashboard.sharpe_of. cbn. by rewrite !fdiv_ok by done.
  - intros [->|(p & -> & Hp)].
    + eexists. by repeat split.
    + unfold Dashboard.equity_metrics. cbn. rewrite fdiv_ok by done. cbn.
      eexists. split; [reflexivity|]. cbn. split; [|done].
      assert ((log_equity p - log_equity p) / log_equity p = 0) as ->.
      { unfold Qcdiv, Qcminus. by rewrite Qcplus_opp_r, Qcmult_0_l. }
      by vm_compute.
Qed.

(** ** A tripped breaker with nothing open *)

Lemma process_market_halted now c market :
  positions (book c) = [] →
  (CIRCUIT_BREAKER ≤ consecutive_losses (book c))%Z →
  book (process_market now c market) = book c ∧
  files (process_market now c market) = files c.
Proof.
  intros Hflat Htripped.
  assert (mark_step c market
          = mkCycle (files c) (update_history (price_history_cache c) market) (book c))
    as Hmark.
  { unfold mark_step, update_position_pnl. by rewrite Hflat. }
  assert (exit_step now (mark_step c market) market = mark_step c market) as Hexit.
  { rewrite Hmark. unfold exit_step, check_exit_conditions. cbn. by rewrite Hflat. }
  unfold process_market. rewrite Hexit, Hmark. unfold entry_step.
  destruct (entry_signal _ market) as [[[signal|] strat]|]; try done.
  cbn. by rewrite execute_trade_circuit_breaker.
Qed.

Lemma foldl_process_market_halted now markets :
  ∀ c,
    positions (book c) = [] →
    (CIRCUIT_BREAKER ≤ consecutive_losses (book c))%Z →
    book (foldl (process_market now) c markets) = book c ∧
    files (foldl (process_market now) c markets) = files c.
Proof.
  induction markets as [|m ms IH]; intros c Hflat Htripped; [done|]. cbn.
  destruct (process_market_halted now c m Hflat Htripped) as [Hbook Hfiles].
  destruct (IH (process_market now c m)) as [Hb Hf]; [by rewrite Hbook..|].
  split; congruence.
Qed.

Lemma run_trading_cycle_halted now fs cache markets :
  positions (load_positions fs) = [] →
  (CIRCUIT_BREAKER ≤ consecutive_losses (load_positions fs))%Z →
  let fs' := files (run_trading_cycle now fs cache markets) in
  positions (load_positions fs') = [] ∧
  cash (load_positions fs') = cash (load_positions fs) ∧
  consecutive_losses (load_positions fs') = consecutive_losses (load_positions fs) ∧
  load_trades fs' = load_trades fs.
Proof.
  intros Hflat Htripped. cbn zeta. destruct markets as [|m ms].
  - by rewrite run_trading_cycle_empty.
  - rewrite run_trading_cycle_nonempty by done.
    destruct (foldl_process_market_halted now
                (take 5 (sorted_by_liquidity (m :: ms)))
                (mkCycle fs cache (load_positions fs)) Hflat Htripped)
      as [Hbook Hfiles].
    cbn in Hbook, Hfiles. cbn. rewrite Hbook, Hfiles. by repeat split.
Qed.

(** X18: the breaker is reset only by a profitable close, so once it is
    tripped with no position left open the engine is halted for good: over
    any run of cycles, whatever the feeds, the saved portfolio stays
    without positions, cash and the loss counter stay as they are, and the
    trade log gains nothing. *)
Theorem tripped_and_flat_is_final fs :
  positions (load_positions fs) = [] →
  (CIRCUIT_BREAKER ≤ consecutive_losses (load_positions fs))%Z →
  ∀ triggers cache,
    let fs' := (run_cycles triggers fs cache).1 in
    positions (load_positions fs') = [] ∧
    cash (load_positions fs') = cash (load_positions fs) ∧
    consecutive_losses (load_positions fs') = consecutive_losses (load_positions fs) ∧
    load_trades fs' = load_trades fs.
Proof.
  intros Hflat Htripped triggers. revert fs Hflat Htripped.
  induction triggers as [|[now markets] rest IH]; intros fs Hflat Htripped cache;
    [done|].
  cbn.
  destruct (run_trading_cycle_halted now fs cache markets Hflat Htripped)
    as (Hflat' & Hcash & Hlosses & Htrades).
  destruct (IH (files (run_trading_cycle now fs cache markets)) Hflat'
              ltac:(by rewrite Hlosses)
              (price_history_cache (run_trading_cycle now fs cache markets)))
    as (H1 & H2 & H3 & H4).
  cbn zeta in *. repeat split; congruence.
Qed.

(** ** The loss counter and the trade log *)

Lemma losing_streak_snoc pnls pnl :
  losing_streak (pnls ++ [pnl])
    = if Num.ltb 0 pnl then 0%Z else (losing_streak pnls + 1)%Z.
Proof. unfold losing_streak. by rewrite foldl_snoc. Qed.

Lemma losing_streak_losers pnls losers :
  Forall (λ pnl, pnl ≤ 0) losers →
  losing_streak (pnls ++ losers)
    = (losing_streak pnls + Z.of_nat (length losers))%Z.
Proof.
  induction losers as [|x l IH] using rev_ind; intros Hall.
  - rewrite app_nil_r. cbn. lia.
  - apply Forall_app in Hall as [Hl Hx]. apply Forall_inv in Hx.
    rewrite app_assoc, losing_streak_snoc, IH by done.
    apply Num_ltb_false_le in Hx. rewrite Hx, length_app. cbn. lia.
Qed.

Lemma sells_app trades trades' :
  Dashboard.sells (trades ++ trades')
    = Dashboard.sells trades ++ Dashboard.sells trades'.
Proof. unfold Dashboard.sells. apply omap_app. Qed.

Lemma process_market_counter now c market :
  consecutive_losses (book c)
    = losing_streak (Dashboard.sells (load_trades (files c))) →
  consecutive_losses (book (process_market now c market))
    = losing_streak
        (Dashboard.sells (load_trades (files (process_market now c market)))).
Proof.
  intros H0. unfold process_market.
  set (c1 := mark_step c market).
  assert (consecutive_losses (book c1)
          = losing_streak (Dashboard.sells (load_trades (files c1)))) as H1.
  { cbn. by rewrite (marks_losses _ _ (update_position_pnl_marks (book c) market)). }
  set (c2 := exit_step now c1 market).
  assert (consecutive_losses (book c2)
          = losing_streak (Dashboard.sells (load_trades (files c2)))) as H2.
  { unfold c2, exit_step.
    destruct (check_exit_conditions _ _) as [[] reason]; [|done].
    unfold close_position.
    destruct (list_find _ _) as [[i position]|]; [|done]. cbn.
    rewrite sells_app. cbn. rewrite losing_streak_snoc.
    destruct (Num.ltb _ _); [done|]. cbn in H1. by rewrite H1. }
  unfold entry_step.
  destruct (entry_signal c2 market) as [[[signal|] strat]|]; try done.
  unfold execute_trade.
  destruct (decide (signal ≠ BUY)); [done|].
  destruct (decide (CIRCUIT_BREAKER ≤ _)%Z); [done|].
  destruct (fdiv _ _); [|done]. destruct (Num.ltb _ _); [done|]. cbn.
  rewrite sells_app. cbn. by rewrite app_nil_r.
Qed.

Lemma run_trading_cycle_counter now fs cache markets :
  counter_matches_log fs →
  counter_matches_log (files (run_trading_cycle now fs cache markets)).
Proof.
  unfold counter_matches_log. intros H0.
  destruct markets as [|m ms]; [by rewrite run_trading_cycle_empty|].
  rewrite run_trading_cycle_nonempty by done. cbn.
  assert (∀ l c,
            consecutive_losses (book c)
              = losing_streak (Dashboard.sells (load_trades (files c))) →
            consecutive_losses (book (foldl (process_market now) c l))
              = losing_streak
                  (Dashboard.sells
                     (load_trades (files (foldl (process_market now) c l)))))
    as Hfold.
  { induction l as [|x l IH]; intros c Hc; [done|]. cbn.
    by apply IH, process_market_counter. }
  by apply Hfold.
Qed.

(** X19: the loss counter is a function of the trade log.  The count a log
    leads to is the number of closes since the last one with a positive
    PnL, and if the saved counter is what the saved log leads to (as on a
    fresh install, with no files or with the counter at 0 and an empty
    log), it still is after any run of cycles. *)
Theorem counter_follows_log :
  (∀ pnls win losers,
     0 < win → Forall (λ pnl, pnl ≤ 0) losers →
     losing_streak (pnls ++ win :: losers) = Z.of_nat (length losers)) ∧
  (∀ losers,
     Forall (λ pnl, pnl ≤ 0) losers →
     losing_streak losers = Z.of_nat (length losers)) ∧
  (∀ curve, counter_matches_log (mkFiles None None curve)) ∧
  (∀ triggers fs cache,
     counter_matches_log fs →
     counter_matches_log (run_cycles triggers fs cache).1).
Proof.
  split; [|split; [|split]].
  - intros pnls win losers Hwin Hall.
    replace (pnls ++ win :: losers) with ((pnls ++ [win]) ++ losers)
      by by rewrite <- app_assoc.
    rewrite losing_streak_losers, losing_streak_snoc by done.
    apply Num_ltb_lt in Hwin. rewrite Hwin. lia.
  - intros losers Hall. by rewrite <- (app_nil_l losers), losing_streak_losers.
  - done.
  - induction triggers as [|[now markets] rest IH]; intros fs cache H0; [done|].
    cbn. by apply IH, run_trading_cycle_counter.
Qed.

(** ** A round trip *)

Lemma execute_trade_true fs now pf market signal strat :
  (execute_trade fs now pf market signal strat).2 = true →
  yes_price_of market ≠ 0 ∧
  ∃ position trade,
    execute_trade fs now pf market signal strat =
      (save_trades fs (load_trades fs ++ [trade]),
       mkPortfolio (positions pf ++ [position]) (cash pf - cash pf * POSITION_SIZE)
                   (equity pf) (high_water pf) (max_drawdown pf)
                   (consecutive_losses pf),
       true) ∧
    market_id position = id market ∧
    entry_price position = yes_price_of market ∧
    shares position = cash pf * POSITION_SIZE / yes_price_of market.
Proof.
  unfold execute_trade.
  destruct (decide (signal ≠ BUY)); [done|].
  destruct (decide (CIRCUIT_BREAKER ≤ _)%Z); [done|].
  unfold fdiv. destruct (Num.eqb (yes_price_of market) 0) eqn:E; [done|].
  destruct (Num.ltb _ _); [done|]. intros _. split.
  - intros H. apply Num_eqb_eq in H. congruence.
  - eexists _, _. split; [reflexivity|]. by cbn.
Qed.

Lemma mark_book_snoc market book position :
  id market ∉ market_id <$> book →
  market_id position = id market →
  mark_book market (book ++ [position])
    = book ++ [mark_position position (yes_price_of market)].
Proof.
  intros Hfree Hid. unfold mark_book at 1. rewrite fmap_app.
  fold (mark_book market book). rewrite mark_book_other by done.
  cbn. by rewrite decide_True.
Qed.

(** X20: buying a market that has no position, marking it at a later price
    and closing it brings the book back to the positions it had and adds
    one BUY and one SELL record to the trade log.  With shares = notional /
    entry price, cash ends as (cash - notional) + shares * later price, the
    SELL records the PnL shares * later price - shares * entry price, and
    the loss counter is reset when that PnL is positive and raised by one
    when it is not. *)
Theorem round_trip fs now pf market later reason strat :
  unique_instruments pf →
  id market ∉ open_instruments pf →
  id later = id market →
  let opened := execute_trade fs now pf market BUY strat in
  let marked := update_position_pnl opened.1.2 later in
  let closed := close_position opened.1.1 now marked later reason in
  let size := cash pf * POSITION_SIZE / yes_price_of market in
  let pnl := size * yes_price_of later - size * yes_price_of market in
  opened.2 = true →
  closed.2 = true ∧
  positions closed.1.2 = positions pf ∧
  cash closed.1.2 = cash pf - cash pf * POSITION_SIZE + size * yes_price_of later ∧
  consecutive_losses closed.1.2 =
    (if decide (0 < pnl) then 0%Z else (consecutive_losses pf + 1)%Z) ∧
  (∃ buy sell, load_trades closed.1.1 = load_trades fs ++ [buy; sell]) ∧
  Dashboard.sells (load_trades closed.1.1)
    = Dashboard.sells (load_trades fs) ++ [pnl].
Proof.
  intros Hnd Hfree Hid opened marked closed size pnl Hok.
  subst closed marked opened. cbv zeta in Hok.
  destruct (execute_trade_true fs now pf market BUY strat Hok)
    as (Hprice & position & trade & Heq & Hpid & Hentry & Hshares).
  assert (∃ strat' price shares amount n,
            trade = BuyTrade now (question market) strat' price shares amount n)
    as (strat' & price & shares' & amount' & n & Htrade).
  { revert Heq. unfold execute_trade.
    destruct (decide (BUY ≠ BUY)); [done|].
    destruct (decide (CIRCUIT_BREAKER ≤ _)%Z); [done|].
    destruct (fdiv _ _); [|done]. destruct (Num.ltb _ _); [done|].
    intros [= Hfs _]. apply app_inj_tail in Hfs as [_ <-]. by eexists _, _, _, _, _. }
  clear Hok. rewrite Heq. cbn [fst snd].
  set (pf1 := mkPortfolio (positions pf ++ [position]) _ _ _ _ _).
  assert (unique_instruments pf1) as Hnd1.
  { unfold unique_instruments, open_instruments, pf1. cbn.
    rewrite fmap_app. apply NoDup_app. split; [done|]. split; [|apply NoDup_singleton].
    intros x Hx [->|[]%elem_of_nil]%elem_of_cons. by rewrite Hpid in Hx. }
  pose proof (update_position_pnl_marks pf1 later) as [_ Hcash Hlosses _ _].
  assert (positions (update_position_pnl pf1 later)
          = positions pf ++ [mark_position position (yes_price_of later)]) as Hbook.
  { unfold update_position_pnl.
    rewrite (update_position_pnl_loop_unique later _ Hnd1 [] pf1 eq_refl). cbn.
    apply mark_book_snoc; [by rewrite Hid|by rewrite Hid]. }
  assert (list_find (λ p, market_id p = id later)
            (positions (update_position_pnl pf1 later))
          = Some (length (positions pf),
                  mark_position position (yes_price_of later))) as Hfind.
  { rewrite Hbook. apply list_find_Some. split; [by rewrite list_lookup_middle|].
    split; [cbn; by rewrite Hid|].
    intros j y Hj Hlt Hy. rewrite lookup_app_l in Hj by done.
    apply Hfree. rewrite <- Hid, <- Hy. unfold open_instruments.
    apply list_elem_of_fmap_2. by eapply list_elem_of_lookup_2. }
  unfold close_position. rewrite Hfind. cbn [fst snd].
  cbn -[update_position_pnl]. rewrite Hbook, delete_middle, app_nil_r, Hcash, Hlosses.
  cbn. rewrite Hshares, Hentry. fold size.
  split; [done|]. split; [done|]. split; [|split; [|split]].
  - done.
  - fold pnl. destruct (Num.ltb 0 pnl) eqn:E.
    + apply Num_ltb_lt in E. by rewrite decide_True.
    + rewrite decide_False; [done|]. intros H%Num_ltb_lt. congruence.
  - eexists _, _. unfold load_trades. cbn. by rewrite <- app_assoc.
  - unfold load_trades. cbn. rewrite !sells_app, Htrade. cbn.
    by rewrite app_nil_r.
Qed.

(** ** Market discovery *)

Lemma prefix_letters kw :
  ∀ text, String.prefix kw text = true → ∀ c, c ∈ letters kw → c ∈ letters text.
Proof.
  induction kw as [|k kw IH]; intros text Hp c Hc; [by apply elem_of_nil in Hc|].
  destruct text as [|t text]; [done|]. cbn in Hp.
  destruct (Ascii.ascii_dec k t) as [->|]; [|done].
  cbn in *. apply elem_of_cons in Hc as [->|Hc]; [left|right; by eapply IH].
Qed.

Lemma contains_letters kw text :
  contains kw text = true → ∀ c, c ∈ letters kw → c ∈ letters text.
Proof.
  induction text as [|t text IH]; intros H c Hc;
    apply orb_true_iff in H as [H|H].
  - by eapply prefix_letters.
  - done.
  - by eapply prefix_letters.
  - right. by apply IH.
Qed.

Lemma contains_letter c text :
  contains (String c EmptyString) text = true ↔ c ∈ letters text.
Proof.
  split.
  - intros H. eapply contains_letters; [done|]. cbn. left.
  - induction text as [|t text IH]; cbn; intros H; [by apply elem_of_nil in H|].
    destruct (Ascii.ascii_dec c t) as [->|Hne].
    + destruct text; cbn; by destruct (Ascii.ascii_dec t t).
    + apply elem_of_cons in H as [->|H]; [done|].
      rewrite IH by done. apply orb_true_r.
Qed.

Lemma contains_lower kw text c :
  c ∈ letters kw → is_lower c = true → no_lower text → contains kw text = false.
Proof.
  intros Hc Hl Htext. destruct (contains kw text) eqn:E; [|done].
  pose proof (Htext c (contains_letters _ _ E c Hc)). congruence.
Qed.

Lemma letters_app s t : letters (s +:+ t) = letters s ++ letters t.
Proof.
  induction s as [|c s IH]; [done|].
  change (c :: letters (s +:+ t) = c :: (letters s ++ letters t)).
  by rewrite IH.
Qed.

Lemma letters_concat (P : Ascii.ascii → Prop) sep parts :
  (∀ c, c ∈ letters sep → P c) →
  (∀ part c, part ∈ parts → c ∈ letters part → P c) →
  ∀ c, c ∈ letters (String.concat sep parts) → P c.
Proof.
  intros Hsep. induction parts as [|part parts IH]; intros Hparts c Hc.
  - by apply elem_of_nil in Hc.
  - destruct parts as [|part' parts].
    + eapply Hparts; [left|done].
    + change (String.concat sep (part :: part' :: parts))
        with (part +:+ sep +:+ String.concat sep (part' :: parts)) in Hc.
      rewrite !letters_app in Hc.
      apply elem_of_app in Hc as [Hc|[Hc|Hc]%elem_of_app].
      * eapply Hparts; [left|done].
      * by apply Hsep.
      * apply IH; [|done]. intros p c' Hp. apply Hparts. by right.
Qed.

Lemma outcome_text_letters (P : Ascii.ascii → Prop) upper market :
  P " "%char →
  (∀ o c, o ∈ Listing.outcomes market → c ∈ letters (upper o) → P c) →
  ∀ c, c ∈ letters (outcome_text upper market) → P c.
Proof.
  intros Hsp Hparts c. unfold outcome_text.
  destruct (Listing.outcomes market) as [|o outcomes] eqn:E.
  - by intros ?%elem_of_nil.
  - apply letters_concat.
    + intros c' [->|[]%elem_of_nil]%elem_of_cons. done.
    + intros part c' (o' & -> & Ho')%list_elem_of_fmap. by apply Hparts.
Qed.

Lemma outcome_text_no_lower upper market :
  (∀ s, no_lower (upper s)) → no_lower (outcome_text upper market).
Proof.
  intros Hup c. revert c.
  apply (outcome_text_letters (λ c, is_lower c = false)); [done|].
  intros o c _. apply Hup.
Qed.

Lemma is_crypto_upper upper market :
  (∀ s, no_lower (upper s)) →
  is_crypto upper market =
    existsb (λ kw, contains kw (upper (Listing.question market)))
            ["BTC"; "ETH"; "SOL"].
Proof.
  intros Hup. unfold is_crypto. cbn [existsb crypto_keywords].
  rewrite (contains_lower "bitcoin" _ "b"), (contains_lower "ethereum" _ "e"),
    (contains_lower "solana" _ "s"); try done; cbn; left.
Qed.

Lemma is_directional_upper upper market :
  (∀ s, no_lower (upper s)) →
  is_directional upper market =
    existsb (λ kw, contains kw (outcome_text upper market)) ["+"; "-"].
Proof.
  intros Hup. pose proof (outcome_text_no_lower upper market Hup) as Htext.
  unfold is_directional. cbn [existsb outcome_keywords].
  rewrite (contains_lower "up" _ "u"), (contains_lower "down" _ "d"),
    (contains_lower "higher" _ "h"), (contains_lower "lower" _ "l");
    try done; cbn; left.
Qed.

(** X21: whatever [str.upper] does to the other letters, its result has
    none of [a-z], so the lower-case keywords never match: a question
    counts as crypto only through BTC, ETH or SOL, and the outcomes count
    as directional only through a plus or a minus sign. *)
Theorem lowercase_keywords_never_match upper market :
  (∀ s, no_lower (upper s)) →
  is_crypto upper market =
    existsb (λ kw, contains kw (upper (Listing.question market)))
            ["BTC"; "ETH"; "SOL"] ∧
  (is_directional upper market = true ↔
   ∃ c, c ∈ signs ∧ c ∈ letters (outcome_text upper market)).
Proof.
  intros Hup. split; [by apply is_crypto_upper|].
  rewrite is_directional_upper by done. cbn [existsb].
  rewrite orb_false_r, orb_true_iff, !contains_letter. unfold signs. split.
  - intros [H|H]; eexists; (split; [|exact H]); [left|right; left].
  - intros (c & [->|[->|[]%elem_of_nil]%elem_of_cons]%elem_of_cons & H); auto.
Qed.


Lemma outcomes_dict_loop_two prices a b :
  outcomes_dict_loop prices 0 [a; b] ∅ =
    match prices with
    | p :: q :: _ => Ok (<[b := q]> {[a := p]})
    | _ => Raise IndexError
    end.
Proof. by destruct prices as [|p [|q rest]]. Qed.

Lemma discover_cases upper acc l :
  (∃ m, listed upper l m ∧ discover upper acc l = acc ++ [m]) ∨
  ((∀ m, ¬ listed upper l m) ∧ discover upper acc l = acc).
Proof.
  unfold discover, listed.
  destruct (Listing.closed l); [right; naive_solver|].
  destruct (Listing.active l); [|right; naive_solver]. cbn [negb orb].
  destruct (Num.ltb _ _) eqn:Hliq.
  { right. split; [|done]. intros m (_ & _ & Hle & _).
    apply Num_ltb_lt in Hliq. by apply Qcle_not_lt in Hle. }
  apply Num_ltb_false_le in Hliq.
  destruct (is_crypto upper l); [|right; naive_solver].
  destruct (is_directional upper l); [|right; rewrite andb_false_r; naive_solver].
  cbn [andb]. rewrite andb_true_r. case_bool_decide as Hlen.
  - destruct (Listing.outcomes l) as [|a [|b [|c rest]]]; try done.
    rewrite outcomes_dict_loop_two.
    destruct (Listing.outcomePrices l) as [|p [|q rest]].
    + right. naive_solver.
    + right. naive_solver.
    + left. eexists. split; [|done]. do 5 (split; [done|]). by eexists _, _, _, _, _.
  - right. split; [|done]. intros m (_ & _ & _ & _ & _ & a & b & p & q & rest & Ho & _).
    by rewrite Ho in Hlen.
Qed.

Lemma foldl_discover_elem upper all :
  ∀ acc m,
    m ∈ foldl (discover upper) acc all ↔
    m ∈ acc ∨ ∃ l, l ∈ all ∧ listed upper l m.
Proof.
  induction all as [|l all IH]; intros acc m; cbn.
  - split; [by left|]. intros [?|(l & []%elem_of_nil & _)]. done.
  - rewrite IH.
    destruct (discover_cases upper acc l) as [(m' & Hm' & ->)|[Hnone ->]].
    + rewrite elem_of_app, list_elem_of_singleton. split.
      * intros [[? | ->]|(l' & ? & ?)]; [by left|right|right].
        -- exists l. split; [left|done].
        -- exists l'. split; [by right|done].
      * intros [?|(l' & [-> | ?]%elem_of_cons & Hl')]; [by left; left| |].
        -- left. right. destruct Hm' as (_ & _ & _ & _ & _ & a & b & p & q & r & Ho & Hp & ->).
           destruct Hl' as (_ & _ & _ & _ & _ & a' & b' & p' & q' & r' & Ho' & Hp' & ->).
           congruence.
        -- right. by exists l'.
    + split.
      * intros [?|(l' & ? & ?)]; [by left|right]. exists l'. split; [by right|done].
      * intros [?|(l' & [-> | ?]%elem_of_cons & Hl')]; [by left| |].
        -- by apply Hnone in Hl'.
        -- right. by exists l'.
Qed.

(** X22: what market discovery hands to the cycle.  A failed request gives
    the empty feed.  Otherwise a market is handed on exactly when some
    listing is open and active, has [liquidityNum] of at least
    [MIN_LIQUIDITY], matches a crypto keyword, has exactly two outcomes
    matching a direction keyword and at least two prices; its quotes are the
    first two prices under the two outcome names, the second name winning
    when both are the same. *)
Theorem get_crypto_markets_spec upper :
  get_crypto_markets upper None = [] ∧
  ∀ all_markets m,
    m ∈ get_crypto_markets upper (Some all_markets) ↔
    ∃ l, l ∈ all_markets ∧ listed upper l m.
Proof.
  split; [done|]. intros all m. unfold get_crypto_markets.
  rewrite foldl_discover_elem. split; [|by right].
  by intros [?%elem_of_nil|?].
Qed.

Lemma outcome_text_unsigned upper market :
  (∀ s, unsigned s → unsigned (upper s)) →
  (∀ o, o ∈ Listing.outcomes market → unsigned o) →
  unsigned (outcome_text upper market).
Proof.
  intros Hup Ho c. revert c.
  apply (outcome_text_letters (λ c, c ∉ signs)).
  - unfold signs. by intros [?|[?|?%elem_of_nil]%elem_of_cons]%elem_of_cons.
  - intros o c Hin. by apply Hup, Ho.
Qed.

(** X23: a feed in which no outcome name carries a plus or a minus sign
    (Up and Down, Yes and No) is discovered as empty, because the direction
    keywords in letters are lower case and the text they are looked up in
    is upper case; the cycle then skips: files, cache and portfolio stay
    as they were. *)
Theorem unsigned_outcomes_never_trade upper now fs cache all_markets :
  upper_spec upper →
  (∀ l o, l ∈ all_markets → o ∈ Listing.outcomes l → unsigned o) →
  get_crypto_markets upper (Some all_markets) = [] ∧
  run_trading_cycle now fs cache (get_crypto_markets upper (Some all_markets))
    = mkCycle fs cache (load_positions fs).
Proof.
  intros [Hlow Hsign] Hall.
  assert (get_crypto_markets upper (Some all_markets) = []) as ->;
    [|by rewrite run_trading_cycle_empty].
  apply elem_of_nil_inv. intros m Hm.
  unfold get_crypto_markets in Hm. apply foldl_discover_elem in Hm
    as [[]%elem_of_nil|(l & Hl & _ & _ & _ & _ & Hdir & _)].
  rewrite is_directional_upper in Hdir by done. cbn [existsb] in Hdir.
  rewrite orb_false_r, orb_true_iff, !contains_letter in Hdir.
  pose proof (outcome_text_unsigned upper l Hsign (λ o, Hall l o Hl)) as Htext.
  unfold signs in Htext.
  destruct Hdir as [H|H]; apply Htext in H; apply H; [left|right; left].
Qed.

(** X24: the quote the engine reads off a discovered market.  For a listing
    with outcomes [a], [b] and first prices [p], [q] it is [q] when [b] is
    YES, else [p] when [a] is YES, else the same with Up, and one half in
    every other case, whatever the prices are; outcome names are matched as
    they are listed, not in upper case. *)
Theorem discovered_quote upper l a b p q rest :
  Listing.outcomes l = [a; b] →
  Listing.outcomePrices l = p :: q :: rest →
  Forall (λ m, yes_price_of m = quote_of a b p q) (discover upper [] l).
Proof.
  intros Ho Hp.
  destruct (discover_cases upper [] l) as [(m & Hm & ->)|[_ ->]];
    [|by apply Forall_nil].
  apply Forall_singleton.
  destruct Hm as (_ & _ & _ & _ & _ & a' & b' & p' & q' & r' & Ho' & Hp' & ->).
  rewrite Ho in Ho'. rewrite Hp in Hp'. simplify_eq.
  unfold yes_price_of, quote_of. cbn.
  destruct (decide (b' = "YES")) as [Hb|Hb].
  { subst b'. by rewrite lookup_insert_eq. }
  rewrite (lookup_insert_ne _ b' "YES") by done.
  destruct (decide (a' = "YES")) as [Ha|Ha].
  { subst a'. by rewrite lookup_singleton_eq. }
  rewrite (lookup_singleton_ne a' "YES") by done. cbn.
  destruct (decide (b' = "Up")) as [Hb'|Hb'].
  { subst b'. by rewrite lookup_insert_eq. }
  rewrite (lookup_insert_ne _ b' "Up") by done.
  destruct (decide (a' = "Up")) as [Ha'|Ha'].
  { subst a'. by rewrite lookup_singleton_eq. }
  by rewrite (lookup_singleton_ne a' "Up").
Qed.

(** ** Upper case on [a-z] *)

Lemma upper_letter_is_lower c : is_lower (Ascii7.upper_letter c) = false.
Proof. by destruct c as [[] [] [] [] [] [] [] []]. Qed.

Lemma upper_letter_signs c :
  bool_decide (Ascii7.upper_letter c ∈ signs) = bool_decide (c ∈ signs).
Proof. by destruct c as [[] [] [] [] [] [] [] []]; vm_compute. Qed.

Lemma letters_upper s :
  letters (Ascii7.upper s) = Ascii7.upper_letter <$> letters s.
Proof. induction s as [|c s IH]; cbn; [done|]. by rewrite IH. Qed.

Lemma Ascii7_upper_spec : upper_spec Ascii7.upper.
Proof.
  split.
  - intros s c. rewrite letters_upper.
    intros (c' & -> & _)%list_elem_of_fmap. apply upper_letter_is_lower.
  - intros s Hs c. rewrite letters_upper.
    intros (c' & -> & Hc')%list_elem_of_fmap Hsign. apply (Hs c' Hc').
    apply (bool_decide_unpack (c' ∈ signs)). rewrite <- upper_letter_signs.
    by apply bool_decide_pack.
Qed.

Lemma unsigned_bool s :
  forallb (λ c, bool_decide (c ∉ signs)) (letters s) = true → unsigned s.
Proof.
  intros H c Hc. rewrite forallb_forall in H.
  apply (bool_decide_eq_true_1 (c ∉ signs)), H. by apply list_elem_of_In.
Qed.

(** ** Instances *)

Lemma calculate_momentum_never_raises_witness :
  calculate_momentum [Sample.price 40; Sample.price 42; Sample.price 44] 2
    = Ok ((Sample.price 44 - Sample.price 42) / Sample.price 42).
Proof.
  destruct (calculate_momentum_never_raises
              [Sample.price 40; Sample.price 42; Sample.price 44] 2)
    as (m & -> & _ & Hm); [lia|].
  rewrite (Hm [Sample.price 40] (Sample.price 42) [] (Sample.price 44));
    [|reflexivity|discriminate|reflexivity].
  reflexivity.
Defined.

Lemma flat_history_is_sideways_witness :
  detect_market_regime (replicate 10 (Sample.price 39)) = Ok sideways ∧
  generate_signal (Sample.quote "btc" 39) (replicate 10 (Sample.price 39))
    = (Some BUY, mean_reversion).
Proof.
  apply (flat_history_is_sideways (Sample.price 39) 10 (Sample.quote "btc" 39));
    [discriminate|lia].
Defined.

(** The position at +67% is closed, and the market is looked at again for
    an entry in the same pass. *)
Lemma exit_then_entry_same_pass_witness :
  let c := mkCycle Streak.disk ∅ Streak.portfolio in
  let c' := exit_step "t1" c (Sample.quote "xrp" 65) in
  has_position (book c') "xrp" = false ∧
  length (positions (book c')) = 3%nat ∧
  entry_signal c' (Sample.quote "xrp" 65)
    = Some (generate_signal (Sample.quote "xrp" 65)
              (default [] (price_history_cache c !! "xrp"))).
Proof.
  apply (exit_then_entry_same_pass "t1" (mkCycle Streak.disk ∅ Streak.portfolio)
           (Sample.quote "xrp" 65)).
  - apply (bool_decide_unpack (NoDup (open_instruments Streak.portfolio))).
    by vm_compute.
  - by vm_compute.
Defined.

Lemma calculate_metrics_sound_witness :
  match Dashboard.calculate_metrics (λ x, x) Ledger.trades Ledger.curve with
  | Ok m =>
    Dashboard.total_trades m = 3%nat ∧ Dashboard.winning_trades m = 2%nat ∧
    Dashboard.losing_trades m = 1%nat ∧
    0 ≤ Dashboard.win_rate m ∧ Dashboard.win_rate m ≤ 1 ∧
    0 ≤ Dashboard.profit_factor m ∧ 0 ≤ Dashboard.max_drawdown m
  | Raise _ => False
  end.
Proof.
  destruct (Dashboard.calculate_metrics (λ x, x) Ledger.trades Ledger.curve)
    as [m|e] eqn:E; [|vm_compute in E; discriminate E].
  pose proof (calculate_metrics_sound (λ x, x) Ledger.trades Ledger.curve m E)
    as (Htotal & Hsplit & Hwins & _ & Hrate0 & Hrate1 & _ & _ & Hpf & Hdd & _).
  assert (Dashboard.total_trades m = 3%nat) as H3 by exact Htotal.
  assert (Dashboard.winning_trades m = 2%nat) as H2.
  { rewrite Hwins. by vm_compute. }
  refine (conj H3 (conj H2 (conj _ (conj Hrate0 (conj Hrate1 (conj Hpf Hdd)))))).
  lia.
Defined.

Lemma dashboard_drawdown_from_first_point_witness :
  match Dashboard.calculate_metrics (λ x, x) Ledger.trades Ledger.curve with
  | Ok m =>
    (Num.dec 100 1 - Num.dec 90 1) / Num.dec 100 1 ≤ Dashboard.max_drawdown m ∧
    (Num.dec 100 1 - Num.dec 110 1) / Num.dec 100 1 ≤ Dashboard.max_drawdown m
  | Raise _ => False
  end.
Proof.
  destruct (Dashboard.calculate_metrics (λ x, x) Ledger.trades Ledger.curve)
    as [m|e] eqn:E; [|vm_compute in E; discriminate E].
  destruct (dashboard_drawdown_from_first_point (λ x, x) Ledger.trades
              Ledger.curve m E) as [_ H].
  destruct (H ltac:(discriminate) (Ledger.point 100)
              [Ledger.point 90; Ledger.point 110; Ledger.point 99] eq_refl)
    as (_ & Hall & _).
  split.
  - apply (Hall (Ledger.point 90)). right. left.
  - apply (Hall (Ledger.point 110)). right. right. left.
Defined.

(** Three losses on record and nothing open: two cycles over a cheap market
    change nothing. *)
Lemma tripped_and_flat_is_final_witness :
  let fs := mkFiles (Some (with_losses default_positions 3)) None None in
  let fs' := (run_cycles [("t1", [Sample.quote "eth" 39]);
                          ("t2", [Sample.quote "eth" 38])] fs ∅).1 in
  positions (load_positions fs') = [] ∧
  cash (load_positions fs') = BANKROLL ∧
  consecutive_losses (load_positions fs') = 3%Z ∧
  load_trades fs' = [].
Proof.
  apply (tripped_and_flat_is_final
           (mkFiles (Some (with_losses default_positions 3)) None None));
    [reflexivity|by vm_compute].
Defined.

(** Bought at 0.39 and sold at 0.65. *)
Lemma round_trip_witness :
  let opened := execute_trade Thin.disk "t1" default_positions
                  (Sample.quote "eth" 39) BUY mean_reversion in
  let marked := update_position_pnl opened.1.2 (Sample.quote "eth" 65) in
  let closed := close_position opened.1.1 "t1" marked (Sample.quote "eth" 65)
                  Streak.gain in
  let size := BANKROLL * POSITION_SIZE / Sample.price 39 in
  let pnl := size * Sample.price 65 - size * Sample.price 39 in
  closed.2 = true ∧
  positions closed.1.2 = [] ∧
  cash closed.1.2 = BANKROLL - BANKROLL * POSITION_SIZE + size * Sample.price 65 ∧
  Dashboard.sells (load_trades closed.1.1) = [pnl].
Proof.
  intros opened marked closed size pnl.
  destruct (round_trip Thin.disk "t1" default_positions (Sample.quote "eth" 39)
              (Sample.quote "eth" 65) Streak.gain mean_reversion)
    as (Hok & Hbook & Hcash & _ & _ & Hlog).
  - apply NoDup_nil_2.
  - apply not_elem_of_nil.
  - reflexivity.
  - by vm_compute.
  - refine (conj Hok (conj Hbook (conj Hcash Hlog))).
Defined.

Lemma lowercase_keywords_never_match_witness :
  is_crypto Ascii7.upper (Ascii7.named "Up" "Down") = true ∧
  is_directional Ascii7.upper (Ascii7.named "Up" "Down") = false ∧
  is_directional Ascii7.upper (Ascii7.named "Up +" "Down -") = true.
Proof.
  pose proof (proj1 Ascii7_upper_spec) as Hup.
  destruct (lowercase_keywords_never_match Ascii7.upper
              (Ascii7.named "Up" "Down") Hup) as [-> Hplain].
  destruct (lowercase_keywords_never_match Ascii7.upper
              (Ascii7.named "Up +" "Down -") Hup) as [_ Hsigned].
  split; [reflexivity|]. split.
  - destruct (is_directional Ascii7.upper (Ascii7.named "Up" "Down")); [|done].
    destruct (proj1 Hplain eq_refl) as (c & Hc & Htext). exfalso.
    exact (unsigned_bool "UP DOWN" eq_refl c Htext Hc).
  - apply Hsigned. exists "+"%char. split; [left|]. cbn.
    do 3 right. left.
Defined.

Lemma unsigned_outcomes_never_trade_witness :
  let feed := Some [Ascii7.named "Up" "Down"; Ascii7.named "Yes" "No"] in
  get_crypto_markets Ascii7.upper feed = [] ∧
  run_trading_cycle "t1" Sample.disk ∅ (get_crypto_markets Ascii7.upper feed)
    = mkCycle Sample.disk ∅ Sample.portfolio.
Proof.
  apply (unsigned_outcomes_never_trade Ascii7.upper "t1" Sample.disk ∅
           [Ascii7.named "Up" "Down"; Ascii7.named "Yes" "No"]
           Ascii7_upper_spec).
  intros l o Hl Ho. apply unsigned_bool.
  apply elem_of_cons in Hl as [-> | Hl];
    [|apply elem_of_cons in Hl as [-> | Hl]; [|by apply elem_of_nil in Hl]];
    (apply elem_of_cons in Ho as [-> | Ho];
       [|apply elem_of_cons in Ho as [-> | Ho]; [|by apply elem_of_nil in Ho]]);
    reflexivity.
Defined.

(** With a sign in the names the listing is handed on; it is read at its
    first price under the name Up and at one half under the name Yes. *)
Lemma discovered_quote_witness :
  Forall (λ m, yes_price_of m = Num.dec 39 100)
         (discover Ascii7.upper [] (Ascii7.named "Up" "Down -")) ∧
  Forall (λ m, yes_price_of m = Num.dec 5 10)
         (discover Ascii7.upper [] (Ascii7.named "Yes +" "No -")) ∧
  length (discover Ascii7.upper [] (Ascii7.named "Up" "Down -")) = 1%nat ∧
  length (discover Ascii7.upper [] (Ascii7.named "Yes +" "No -")) = 1%nat.
Proof.
  split; [|split; [|split; by vm_compute]].
  - apply (discovered_quote Ascii7.upper (Ascii7.named "Up" "Down -")
             "Up" "Down -" (Num.dec 39 100) (Num.dec 61 100) []); reflexivity.
  - apply (discovered_quote Ascii7.upper (Ascii7.named "Yes +" "No -")
             "Yes +" "No -" (Num.dec 39 100) (Num.dec 61 100) []); reflexivity.
Defined.

(** * The book under the breaker and under a missing quote *)

Lemma update_position_pnl_unique pf market :
  unique_instruments pf →
  positions (update_position_pnl pf market) = mark_book market (positions pf).
Proof.
  intros Hnd. unfold update_position_pnl.
  by rewrite (update_position_pnl_loop_unique market _ Hnd [] pf eq_refl).
Qed.

Lemma mark_book_elem market book position :
  position ∈ book →
  market_id position = id market →
  mark_position position (yes_price_of market) ∈ mark_book market book.
Proof.
  intros Hin Hid. unfold mark_book. apply list_elem_of_fmap.
  exists position. by rewrite decide_True.
Qed.

Lemma mark_book_ids market book :
  market_id <$> mark_book market book = market_id <$> book.
Proof.
  unfold mark_book. rewrite <- list_fmap_compose. apply list_fmap_ext.
  intros i p _. cbn. by case_decide.
Qed.

Lemma list_find_unique market book position :
  NoDup (market_id <$> book) →
  position ∈ book →
  market_id position = id market →
  ∃ i, list_find (λ p, market_id p = id market) book = Some (i, position).
Proof.
  intros Hnd [i Hi]%list_elem_of_lookup Hid. exists i.
  apply list_find_Some. split; [done|]. split; [done|].
  intros j p Hj Hlt Hp.
  assert ((market_id <$> book) !! i = Some (id market)) as Hi'
    by (by rewrite list_lookup_fmap, Hi, <- Hid).
  assert ((market_id <$> book) !! j = Some (id market)) as Hj'
    by (by rewrite list_lookup_fmap, Hj, <- Hp).
  pose proof (NoDup_lookup _ _ _ _ Hnd Hi' Hj'). lia.
Qed.

(** The close of the market's position, when the book holds one position
    per instrument. *)
Lemma close_position_unique fs now pf market reason position :
  unique_instruments pf →
  position ∈ positions pf →
  market_id position = id market →
  ∃ i,
    positions pf !! i = Some position ∧
    close_position fs now pf market reason =
      (save_trades fs
         (load_trades fs ++
            [SellTrade now (question market) (yes_price_of market)
                       (shares position) (shares position * yes_price_of market)
                       (unrealized_pnl position) (unrealized_pnl_pct position)
                       reason (Z.of_nat i)]),
       mkPortfolio (delete i (positions pf))
                   (cash pf + shares position * yes_price_of market)
                   (equity pf) (high_water pf) (max_drawdown pf)
                   (if Num.ltb 0 (unrealized_pnl position) then 0%Z
                    else (consecutive_losses pf + 1)%Z),
       true) ∧
    has_position (close_position fs now pf market reason).1.2 (id market) = false.
Proof.
  intros Hnd Hin Hid.
  destruct (list_find_unique market _ position Hnd Hin Hid) as [i Hfind].
  exists i. pose proof Hfind as (Hi & _ & _)%list_find_Some.
  split; [done|]. unfold close_position. rewrite Hfind. split; [done|].
  apply has_position_false. unfold open_instruments. cbn.
  rewrite list_fmap_delete. apply delete_first_unique; [done|].
  by rewrite list_lookup_fmap, Hi, <- Hid.
Qed.

(** C3: with the threshold at 3, three losing closes in a row bring the
    counter to 3 or more.  While it is there every call of [execute_trade]
    is refused and changes nothing, and the veto stops there: marking to
    market and the exit check do what they would do with the counter at 0,
    that is, with one position per instrument the market's position is
    re-marked at the current price, the exit check answers with the exit
    that the re-marked position has reached, and a close takes the position
    out of the book, credits cash with its shares at the current price and
    logs a SELL with its PnL.  A close with a positive PnL puts the counter
    back to 0, and a BUY is then accepted (given a price that is not zero
    and cash that is not negative). *)
Theorem circuit_breaker :
  CIRCUIT_BREAKER = 3%Z ∧
  (∀ fs now pf m1 m2 m3 r1 r2 r3 x1 x2 x3,
     let s1 := close_position fs now pf m1 r1 in
     let s2 := close_position s1.1.1 now s1.1.2 m2 r2 in
     let s3 := close_position s2.1.1 now s2.1.2 m3 r3 in
     (0 ≤ consecutive_losses pf)%Z →
     closed_pnl pf m1 = Some x1 → x1 ≤ 0 →
     closed_pnl s1.1.2 m2 = Some x2 → x2 ≤ 0 →
     closed_pnl s2.1.2 m3 = Some x3 → x3 ≤ 0 →
     (CIRCUIT_BREAKER ≤ consecutive_losses s3.1.2)%Z) ∧
  (∀ pf,
     (CIRCUIT_BREAKER ≤ consecutive_losses pf)%Z →
     (∀ fs now market signal strat,
        execute_trade fs now pf market signal strat = (fs, pf, false)) ∧
     (∀ market,
        update_position_pnl pf market =
          with_losses (update_position_pnl (with_losses pf 0) market)
                      (consecutive_losses pf) ∧
        check_exit_conditions pf market =
          check_exit_conditions (with_losses pf 0) market ∧
        ∀ fs now reason,
          (close_position fs now pf market reason).2 = has_position pf (id market)) ∧
     (unique_instruments pf →
      ∀ market position,
        position ∈ positions pf →
        market_id position = id market →
        let marked := update_position_pnl pf market in
        let position' := mark_position position (yes_price_of market) in
        let pnl_pct := unrealized_pnl_pct position' in
        positions marked = mark_book market (positions pf) ∧
        position' ∈ positions marked ∧
        current_price position' = yes_price_of market ∧
        unrealized_pnl position' =
          shares position * yes_price_of market
          - shares position * entry_price position ∧
        cash marked = cash pf ∧
        consecutive_losses marked = consecutive_losses pf ∧
        (profit_target_pct position ≤ pnl_pct →
           check_exit_conditions marked market = (true, profit_target pnl_pct)) ∧
        (pnl_pct < profit_target_pct position → pnl_pct ≤ - stop_loss_pct position →
           check_exit_conditions marked market = (true, stop_loss pnl_pct)) ∧
        (pnl_pct < profit_target_pct position → - stop_loss_pct position < pnl_pct →
           check_exit_conditions marked market = (false, no_reason)) ∧
        ∀ fs now reason,
          let closed := close_position fs now marked market reason in
          closed.2 = true ∧
          has_position closed.1.2 (id market) = false ∧
          length (positions closed.1.2) = pred (length (positions pf)) ∧
          cash closed.1.2 = cash pf + shares position * yes_price_of market ∧
          Dashboard.sells (load_trades closed.1.1)
            = Dashboard.sells (load_trades fs) ++ [unrealized_pnl position'])) ∧
  (∀ fs now pf market reason pnl,
     let closed := close_position fs now pf market reason in
     closed_pnl pf market = Some pnl → 0 < pnl →
     closed.2 = true ∧ consecutive_losses closed.1.2 = 0%Z ∧
     ∀ fs' now' market' strat,
       yes_price_of market' ≠ 0 → 0 ≤ cash closed.1.2 →
       let entered := execute_trade fs' now' closed.1.2 market' BUY strat in
       entered.2 = true ∧
       open_instruments entered.1.2 = open_instruments closed.1.2 ++ [id market']).
Proof.
  split; [done|]. split; [|split].
  - intros fs now pf m1 m2 m3 r1 r2 r3 x1 x2 x3 s1 s2 s3 H0 E1 L1 E2 L2 E3 L3.
    destruct (close_position_losing fs now pf m1 r1 x1 E1 L1) as [_ Ha].
    destruct (close_position_losing s1.1.1 now s1.1.2 m2 r2 x2 E2 L2) as [_ Hb].
    destruct (close_position_losing s2.1.1 now s2.1.2 m3 r3 x3 E3 L3) as [_ Hc].
    fold s1 in Ha. fold s2 in Hb. fold s3 in Hc.
    unfold CIRCUIT_BREAKER. lia.
  - intros pf Htripped. split; [|split].
    + intros. by apply execute_trade_circuit_breaker.
    + intros market.
      destruct (exits_ignore_losses (with_losses pf 0) (consecutive_losses pf) market)
        as (Hmark & Hexit & _).
      rewrite with_losses_reset in Hmark, Hexit.
      split; [done|]. split; [done|].
      intros. apply close_position_succeeds.
    + intros Hnd market position Hin Hid marked position' pnl_pct.
      pose proof (update_position_pnl_unique pf market Hnd) as Hbook.
      pose proof (update_position_pnl_marks pf market) as [_ Hcash Hlosses _ _].
      fold marked in Hbook, Hcash, Hlosses.
      assert (position' ∈ positions marked) as Hin'
        by (rewrite Hbook; by apply mark_book_elem).
      assert (unique_instruments marked) as Hnd'.
      { unfold unique_instruments, open_instruments.
        by rewrite Hbook, mark_book_ids. }
      assert (check_exit_conditions marked market =
                match exit_decision position' with
                | Some reason => (true, reason)
                | None => (false, no_reason)
                end) as Hexit.
      { unfold check_exit_conditions.
        by apply (check_exit_loop_unique market _ position' Hnd' Hin'). }
      unfold exit_decision in Hexit. fold pnl_pct in Hexit.
      change (profit_target_pct position') with (profit_target_pct position) in Hexit.
      change (stop_loss_pct position') with (stop_loss_pct position) in Hexit.
      do 6 (split; [done|]).
      refine (conj _ (conj _ (conj _ _))).
      * intros Hpt. apply Num_leb_le in Hpt. by rewrite Hpt in Hexit.
      * intros Hpt Hsl. apply Num_ltb_lt in Hpt. unfold Num.ltb in Hpt.
        apply negb_true_iff in Hpt. unfold Num.leb in Hexit at 1.
        rewrite Hpt in Hexit. apply Num_leb_le in Hsl. by rewrite Hsl in Hexit.
      * intros Hpt Hsl. apply Num_ltb_lt in Hpt, Hsl. unfold Num.ltb in Hpt, Hsl.
        apply negb_true_iff in Hpt, Hsl. unfold Num.leb in Hexit.
        by rewrite Hpt, Hsl in Hexit.
      * intros fs now reason closed.
        destruct (close_position_unique fs now marked market reason position'
                    Hnd' Hin' Hid) as (i & Hi & Heq & Hgone).
        fold closed in Heq, Hgone. rewrite Heq. cbn.
        split; [done|]. split; [by rewrite Heq in Hgone|].
        split; [|split].
        -- rewrite length_delete by (by eexists).
           rewrite Hbook. unfold mark_book. rewrite length_fmap. lia.
        -- by rewrite Hcash.
        -- unfold load_trades. cbn. rewrite sells_app. cbn. done.
  - intros fs now pf market reason pnl closed E Hwin.
    destruct (close_position_winning fs now pf market reason pnl E Hwin)
      as [Hok Hzero].
    fold closed in Hok, Hzero. split; [done|]. split; [done|].
    intros fs' now' market' strat Hprice Hcash entered.
    destruct (execute_trade_accepts fs' now' closed.1.2 market' strat)
      as (fs'' & position & Heq & Hid & _); [rewrite Hzero; done|done|done|].
    unfold entered. rewrite Heq. cbn. split; [done|].
    unfold open_instruments. cbn. by rewrite fmap_app, <- Hid.
Qed.

(** Three stop-loss closes, a refused entry, the last position re-marked
    at 0.70 and found at its profit target, a profit-target close and an
    accepted entry. *)
Lemma circuit_breaker_witness :
  let s1 := close_position Streak.disk "t1" Streak.portfolio
              (Sample.quote "ada" 44) Streak.loss in
  let s2 := close_position s1.1.1 "t1" s1.1.2 (Sample.quote "bnb" 44) Streak.loss in
  let s3 := close_position s2.1.1 "t1" s2.1.2 (Sample.quote "sol" 44) Streak.loss in
  let s4 := close_position s3.1.1 "t3" s3.1.2 (Sample.quote "xrp" 65) Streak.gain in
  let marked := update_position_pnl s3.1.2 (Sample.quote "xrp" 70) in
  (CIRCUIT_BREAKER ≤ consecutive_losses s3.1.2)%Z ∧
  execute_trade s3.1.1 "t2" s3.1.2 (Sample.quote "eth" 39) BUY mean_reversion
    = (s3.1.1, s3.1.2, false) ∧
  positions marked = [Sample.held "xrp" 39 70] ∧
  check_exit_conditions marked (Sample.quote "xrp" 70)
    = (true, profit_target (unrealized_pnl_pct (Sample.held "xrp" 39 70))) ∧
  (close_position s3.1.1 "t3" marked (Sample.quote "xrp" 70) Streak.gain).2 = true ∧
  (close_position s3.1.1 "t3" s3.1.2 (Sample.quote "xrp" 65) Streak.gain).2 = true ∧
  consecutive_losses s4.1.2 = 0%Z ∧
  (execute_trade s4.1.1 "t4" s4.1.2 (Sample.quote "eth" 39) BUY mean_reversion).2
    = true.
Proof.
  destruct circuit_breaker as (_ & Htrip & Hveto & Hreset).
  intros s1 s2 s3 s4 marked.
  assert (CIRCUIT_BREAKER ≤ consecutive_losses s3.1.2)%Z as Htripped.
  { apply (Htrip Streak.disk "t1" Streak.portfolio
             (Sample.quote "ada" 44) (Sample.quote "bnb" 44) (Sample.quote "sol" 44)
             Streak.loss Streak.loss Streak.loss
             (unrealized_pnl (Sample.held "ada" 50 44))
             (unrealized_pnl (Sample.held "bnb" 50 44))
             (unrealized_pnl (Sample.held "sol" 50 44)));
      by vm_compute. }
  destruct (Hveto _ Htripped) as (Hrefused & _ & Hbook).
  assert (positions s3.1.2 = [Sample.held "xrp" 39 65]) as Hleft by reflexivity.
  destruct (Hbook ltac:(unfold unique_instruments, open_instruments;
                        rewrite Hleft; apply NoDup_singleton)
              (Sample.quote "xrp" 70) (Sample.held "xrp" 39 65)
              ltac:(rewrite Hleft; left) eq_refl)
    as (Hmarked & _ & _ & _ & _ & _ & Hexit & _ & _ & Hclose).
  split; [exact Htripped|].
  split; [apply Hrefused|].
  split; [unfold marked; rewrite Hmarked, Hleft; reflexivity|].
  split; [apply Hexit; by vm_compute|].
  split; [apply (Hclose s3.1.1 "t3" Streak.gain)|].
  destruct (Hreset s3.1.1 "t3" s3.1.2 (Sample.quote "xrp" 65) Streak.gain
              (unrealized_pnl (Sample.held "xrp" 39 65)))
    as (Hok & Hzero & Hnext); [by vm_compute..|].
  split; [exact Hok|]. split; [exact Hzero|].
  apply (Hnext s4.1.1 "t4" (Sample.quote "eth" 39) mean_reversion).
  - intros E. apply (f_equal this) in E. vm_compute in E. discriminate E.
  - by vm_compute.
Defined.

Lemma generate_signal_above_entry market price_history :
  Num.ltb (yes_price_of market) MEAN_REVERSION_CONFIG.entry_threshold = false →
  generate_signal market price_history =
    match should_enter_reversal price_history with
    | Ok (true, reason) => (Some BUY, reason)
    | Ok (false, _) => (Some HOLD, no_strategy)
    | Raise _ => (None, no_strategy)
    end.
Proof.
  intros Hprice. unfold generate_signal, generate_signal_body.
  unfold should_enter_mean_reversion. rewrite Hprice. cbn.
  destruct (should_enter_reversal price_history) as [[[] reason]|e]; done.
Qed.

(** C10: a market whose outcome prices have neither a YES nor an Up key is
    priced at 0.5, and signal generation, entry, mark-to-market and close
    (and the price the cycle records in the history) all do on it exactly
    what they do on the same market quoted at YES = 0.5.  None of them
    fails or skips it: the signal is the reversal rule's BUY or else HOLD,
    [None] only when the regime detector raises on the history, and HOLD
    on a history of under ten prices; a BUY that the breaker and cash allow
    opens a position at entry price 0.5; with one position per instrument
    marking re-marks the market's position at 0.5, and the close of its
    position succeeds, credits cash with the shares at 0.5 and logs a SELL
    at exit price 0.5. *)
Theorem missing_quote_is_one_half market :
  outcomes_dict market !! "YES" = None →
  outcomes_dict market !! "Up" = None →
  let half := quoted market (Num.dec 5 10) in
  yes_price_of market = Num.dec 5 10 ∧
  (∀ history, generate_signal market history = generate_signal half history) ∧
  (∀ fs now pf signal strat,
     execute_trade fs now pf market signal strat =
     execute_trade fs now pf half signal strat) ∧
  (∀ pf, update_position_pnl pf market = update_position_pnl pf half) ∧
  (∀ fs now pf reason,
     close_position fs now pf market reason =
     close_position fs now pf half reason) ∧
  (∀ cache, update_history cache market = update_history cache half) ∧
  (∀ fs now pf strat,
     (consecutive_losses pf < CIRCUIT_BREAKER)%Z → 0 ≤ cash pf →
     let entered := execute_trade fs now pf market BUY strat in
     entered.2 = true ∧
     (entry_price <$> positions entered.1.2)
       = (entry_price <$> positions pf) ++ [Num.dec 5 10]) ∧
  (∀ history,
     generate_signal market history =
       match should_enter_reversal history with
       | Ok (true, reason) => (Some BUY, reason)
       | Ok (false, _) => (Some HOLD, no_strategy)
       | Raise _ => (None, no_strategy)
       end ∧
     ((generate_signal market history).1 = None ↔
        ∃ e, detect_market_regime history = Raise e) ∧
     ((length history < 10)%nat →
        generate_signal market history = (Some HOLD, no_strategy))) ∧
  (∀ pf,
     unique_instruments pf →
     positions (update_position_pnl pf market) =
       (λ p, if decide (market_id p = id market)
             then mark_position p (Num.dec 5 10) else p) <$> positions pf) ∧
  (∀ pf position,
     unique_instruments pf →
     position ∈ positions pf →
     market_id position = id market →
     ∃ marked,
       marked ∈ positions (update_position_pnl pf market) ∧
       market_id marked = id market ∧
       current_price marked = Num.dec 5 10 ∧
       unrealized_pnl marked =
         shares position * Num.dec 5 10 - shares position * entry_price position) ∧
  (∀ fs now pf reason,
     (close_position fs now pf market reason).2 = has_position pf (id market)) ∧
  (∀ fs now pf reason position,
     unique_instruments pf →
     position ∈ positions pf →
     market_id position = id market →
     let closed := close_position fs now pf market reason in
     closed.2 = true ∧
     has_position closed.1.2 (id market) = false ∧
     cash closed.1.2 = cash pf + shares position * Num.dec 5 10 ∧
     ∃ i,
       positions pf !! i = Some position ∧
       positions closed.1.2 = delete i (positions pf) ∧
       load_trades closed.1.1 =
         load_trades fs ++
           [SellTrade now (question market) (Num.dec 5 10) (shares position)
                      (shares position * Num.dec 5 10) (unrealized_pnl position)
                      (unrealized_pnl_pct position) reason (Z.of_nat i)]).
Proof.
  intros Hyes Hup half.
  pose proof (yes_price_of_fallback market Hyes Hup) as Hhalf.
  assert (yes_price_of market = yes_price_of half) as Hprice.
  { unfold half. by rewrite yes_price_of_quoted. }
  split; [done|].
  refine (conj _ (conj _ (conj _ (conj _ (conj _ (conj _ (conj _ (conj _
           (conj _ (conj _ _)))))))))).
  - intros. by apply generate_signal_same_quote.
  - intros. by apply execute_trade_same_quote.
  - intros. by apply update_position_pnl_same_quote.
  - intros. by apply close_position_same_quote.
  - intros. by apply update_history_same_quote.
  - intros fs now pf strat Hcb Hcash entered.
    destruct (execute_trade_accepts fs now pf market strat)
      as (fs' & position & Heq & _ & Hentry & _); [done| |done|].
    { rewrite Hhalf. intros E. apply (f_equal this) in E. discriminate E. }
    subst entered. rewrite Heq. cbn. split; [done|].
    by rewrite fmap_app, <- Hhalf, <- Hentry.
  - intros history.
    assert (generate_signal market history =
              match should_enter_reversal history with
              | Ok (true, reason) => (Some BUY, reason)
              | Ok (false, _) => (Some HOLD, no_strategy)
              | Raise _ => (None, no_strategy)
              end) as Hsignal.
    { apply generate_signal_above_entry. by rewrite Hhalf. }
    split; [done|]. split.
    + rewrite (generate_signal_table market history).
      destruct (detect_market_regime history) as [regime|e].
      * split; [|by intros [e ?]].
        destruct (_ && _); [done|]. by destruct (reversal_fires _ _).
      * split; [by exists e|done].
    + intros Hshort. rewrite Hsignal. unfold should_enter_reversal.
      by rewrite decide_True.
  - intros pf Hnd. rewrite update_position_pnl_unique by done.
    unfold mark_book. by rewrite Hhalf.
  - intros pf position Hnd Hin Hid.
    exists (mark_position position (yes_price_of market)).
    rewrite update_position_pnl_unique by done.
    split; [by apply mark_book_elem|]. cbn. by rewrite Hhalf.
  - intros. apply close_position_succeeds.
  - intros fs now pf reason position Hnd Hin Hid closed.
    destruct (close_position_unique fs now pf market reason position Hnd Hin Hid)
      as (i & Hi & Heq & Hgone).
    fold closed in Heq, Hgone. rewrite Heq in Hgone |- *. cbn.
    rewrite Hhalf. split; [done|]. split; [done|]. split; [done|].
    exists i. split; [done|]. split; [done|]. unfold load_trades. cbn. done.
Qed.

(** A market whose outcome keys are Yes and No: read at 0.5, bought at 0.5,
    bought by the reversal rule on a history that turns up, and its
    position, bought at 0.39, re-marked at 0.5 and closed at 0.5. *)
Lemma missing_quote_is_one_half_witness :
  yes_price_of Unquoted.market = Num.dec 5 10 ∧
  (execute_trade Thin.disk "t1" default_positions Unquoted.market BUY
                 mean_reversion).2 = true ∧
  generate_signal Unquoted.market [] = (Some HOLD, no_strategy) ∧
  generate_signal Unquoted.market Unquoted.history = (Some BUY, reversal) ∧
  positions (update_position_pnl Unquoted.portfolio Unquoted.market)
    = [mark_position (Sample.held "doge" 39 39) (Num.dec 5 10)] ∧
  (close_position Thin.disk "t1" Unquoted.portfolio Unquoted.market Streak.gain).2
    = true ∧
  cash (close_position Thin.disk "t1" Unquoted.portfolio Unquoted.market
          Streak.gain).1.2
    = Num.dec 997 10 + Num.dec 6 10 * Num.dec 5 10.
Proof.
  destruct (missing_quote_is_one_half Unquoted.market)
    as (Hprice & _ & _ & _ & _ & _ & Henter & Hsignal & Hmark & _ & _ & Hclose);
    [reflexivity..|].
  assert (unique_instruments Unquoted.portfolio) as Hnd.
  { unfold unique_instruments. cbn. apply NoDup_singleton. }
  split; [exact Hprice|].
  split; [apply (Henter Thin.disk "t1" default_positions mean_reversion);
          by vm_compute|].
  split; [apply (Hsignal []); cbn; lia|].
  split; [rewrite (proj1 (Hsignal Unquoted.history)); by vm_compute|].
  split; [rewrite (Hmark Unquoted.portfolio Hnd); reflexivity|].
  destruct (Hclose Thin.disk "t1" Unquoted.portfolio Streak.gain
              (Sample.held "doge" 39 39) Hnd ltac:(left) eq_refl)
    as (Hok & _ & Hcash & _).
  split; [exact Hok|exact Hcash].
Defined.

(** ** Further instances *)

(** Keys served as text are ordered by their letters: 900 ranks above
    1170.71, and that above 1000. *)
Lemma sorted_by_spec_witness :
  let feed := [("1000", "eth"); ("900", "btc"); ("1170.71", "sol")] in
  sorted_by str_lt fst feed = [("900", "btc"); ("1170.71", "sol"); ("1000", "eth")] ∧
  sorted_by str_lt fst feed ≡ₚ feed ∧
  StronglySorted (not_below str_lt fst) (sorted_by str_lt fst feed).
Proof.
  intros feed. split; [reflexivity|].
  destruct sorted_by_spec as (_ & _ & Hstr & Hsort).
  destruct (Hsort _ _ str_lt fst Hstr feed) as (Hperm & Hsorted & _).
  split; [exact Hperm|exact Hsorted].
Defined.

(** Bought at 0.50 with a stop of 10%: stopped out at 0.44, hence at 0.40,
    and not stopped out at the entry price or above it. *)
Lemma exit_decision_monotone_witness :
  let position := Sample.held "ada" 50 50 in
  exit_decision (mark_position position (Sample.price 40))
    = Some (stop_loss (unrealized_pnl_pct (mark_position position (Sample.price 40)))) ∧
  (∀ r, exit_decision (mark_position position (Sample.price 55)) ≠ Some (stop_loss r)).
Proof.
  intros position.
  destruct (exit_decision_monotone position (Sample.price 40) (Sample.price 44))
    as (Hmono & _ & _).
  destruct (exit_decision_monotone position (Sample.price 55) (Sample.price 55))
    as (_ & _ & Hsides & _).
  split.
  - apply Hmono; by vm_compute.
  - apply Hsides; by vm_compute.
Defined.
